(** * RingsVisualization: circle-pack view of a syntax tree

    A shallow embedding of [src/components/RingsVisualization.tsx]: the
    weight accessor handed to [root.sum], the font-size / padding
    configuration of the pack layout, the label truncation, and the
    click-to-zoom component seen as a state machine over its DOM and React
    state.

    Numbers.  JavaScript numbers are IEEE doubles.  Every finite double is
    a rational, and the development computes with them exactly in [Q];
    [NaN] is kept as a separate value where the code can meet it
    ([d.value || 1]).  Depths, font sizes and string lengths are integers
    and live in [Z].  Rounding of intermediate results is not modelled.

    The packed coordinates [x], [y], [r] themselves come out of d3's
    [pack], which is not part of this repository; the component model takes
    the packed nodes ([root.descendants()]) as given. *)

From Stdlib Require Import ZArith QArith Qround Qminmax Qfield Lqa Lia.
From Stdlib Require Import List String Ascii Bool.
Import ListNotations.

Set Warnings "-register-all".

Open Scope Q_scope.

(** ** JavaScript values used by the component *)

Module JS.

(** A [number]: [NaN] or a finite value. *)
Inductive number : Type :=
| NaN
| Num (q : Q).

(** ToBoolean on a number: [0] and [NaN] are falsy. *)
Definition falsy (n : number) : bool :=
  match n with
  | NaN => true
  | Num q => Qeq_bool q 0
  end.

(** [a || b] where [a] is a possibly missing number ([None] is
    [undefined]) and [b] a number. *)
Definition or (a : option number) (b : number) : number :=
  match a with
  | None => b
  | Some n => if falsy n then b else n
  end.

(** [a + b] on numbers. *)
Definition add (a b : number) : number :=
  match a, b with
  | Num p, Num q => Num (p + q)
  | _, _ => NaN
  end.

(** [Math.PI], the double nearest to pi, as the rational it is. *)
Definition Math_PI : Q := 884279719003555 # 281474976710656.

(** [Math.floor] on a finite number. *)
Definition Math_floor (q : Q) : Z := Qfloor q.

(** [s.slice(start, end)]: negative indices count from the end of the
    string, both are clamped to [0 .. s.length]. *)
Definition slice (s : string) (start stop : Z) : string :=
  let len := Z.of_nat (String.length s) in
  let from := if (start <? 0)%Z then Z.max (len + start) 0 else Z.min start len in
  let to := if (stop <? 0)%Z then Z.max (len + stop) 0 else Z.min stop len in
  substring (Z.to_nat from) (Z.to_nat (Z.max (to - from) 0)) s.

End JS.

(** ** The hierarchy handed to the layout *)

(** A [ts.Node] of the parser, known to the component only by identity. *)
Definition AstNode : Type := nat.

(** [HierarchyNode] of [utils/astToHierarchy]: the fields the component
    reads ([name], [value], [children], [astNode]). *)
Inductive HierarchyNode : Type :=
| mkHierarchyNode (name : string) (value : option JS.number)
                  (astNode : AstNode) (children : list HierarchyNode).

Definition name (d : HierarchyNode) : string :=
  match d with mkHierarchyNode n _ _ _ => n end.

Definition value (d : HierarchyNode) : option JS.number :=
  match d with mkHierarchyNode _ v _ _ => v end.

Definition astNode (d : HierarchyNode) : AstNode :=
  match d with mkHierarchyNode _ _ a _ => a end.

Definition children (d : HierarchyNode) : list HierarchyNode :=
  match d with mkHierarchyNode _ _ _ c => c end.

(** The accessor of [root.sum(d => d.value || 1)]. *)
Definition weight (d : HierarchyNode) : JS.number :=
  JS.or (value d) (JS.Num 1).

(** d3's [node.sum(value)], post-order: the node's own
    [+value(node.data) || 0], to which the children's sums are added from
    the last child to the first. *)
Fixpoint sum (accessor : HierarchyNode -> JS.number) (d : HierarchyNode) : JS.number :=
  match d with
  | mkHierarchyNode _ _ _ cs =>
      fold_right (fun c acc => JS.add acc (sum accessor c))
                 (JS.or (Some (accessor d)) (JS.Num 0)) cs
  end.

(** ** Layout configuration *)

Definition width : Q := 800.
Definition height : Q := 600.
Definition margin : Q := 50.

(** [getFontSize(depth)]. *)
Definition getFontSize (depth : Z) : Z :=
  let baseSize := (40 - depth * 3)%Z in
  let minSize := 24%Z in
  Z.max baseSize minSize.

Definition minSize : Z := 24.

Definition maxFontSize : Z := getFontSize 0.

(** [pack.size([width - margin * 2, height - margin * 2])]. *)
Definition pack_size : Q * Q := (width - margin * 2, height - margin * 2).

(** [pack.padding(maxFontSize)]: given a number, d3 uses the constant
    function; its argument is the node whose children are being separated,
    seen here through its depth. *)
Definition pack_padding (depth : Z) : Z := maxFontSize.

(** A node after [pack(root)], as listed by [root.descendants()]. *)
Record PackNode : Type := mkPackNode {
  data : HierarchyNode;
  depth : Z;
  x : Q;
  y : Q;
  r : Q
}.

(** ** Labels *)

(** [d.r > 30]. *)
Definition large_enough (d : PackNode) : bool := negb (Qle_bool (r d) 30).

(** The test guarding label creation: [d.depth === 0 && d.r > 30]. *)
Definition has_label (d : PackNode) : bool := (depth d =? 0)%Z && large_enough d.

Definition arcRadius (d : PackNode) : Q := r d - 5.

(** [Math.floor((arcRadius * Math.PI) / (fontSize * 0.6))]. *)
Definition maxChars (d : PackNode) (fontSize : Z) : Z :=
  JS.Math_floor ((arcRadius d * JS.Math_PI) / (inject_Z fontSize * (6 # 10))).

(** [label.length > maxChars ? label.slice(0, maxChars - 2) + '...' : label]. *)
Definition truncate (label : string) (maxChars : Z) : string :=
  if (Z.of_nat (String.length label) >? maxChars)%Z
  then (JS.slice label 0 (maxChars - 2) ++ "...")%string
  else label.

Definition truncatedLabel (d : PackNode) : string :=
  truncate (name (data d)) (maxChars d (getFontSize (depth d))).

(** ** The component as a state machine *)

(** The [transform] attribute of the zoom group:
    [translate(tx, ty) scale(k)]; a missing [scale] is the identity. *)
Record Transform : Type := mkTransform {
  translateX : Q;
  translateY : Q;
  scale : Q
}.

(** [translate(${margin}, ${margin})], the transform the group is created
    with. *)
Definition root_transform : Transform := mkTransform margin margin 1.

(** A [text.ring-label] element and the entry of [labelElements] made for
    it.  [node] is the index in [nodes] of the packed node it was made for
    (object identity of the node), [content] the text of its [textPath],
    [opacity] the element's own style, [1] when never set. *)
Record LabelElement : Type := mkLabelElement {
  node : nat;
  pathId : nat;
  fontSize : Z;
  content : string;
  opacity : Z
}.

(** [nodes.forEach((d, i) => ...)]: a label for every node that passes
    [d.depth === 0 && d.r > 30]. *)
Fixpoint make_labels (i : nat) (ns : list PackNode) : list LabelElement :=
  match ns with
  | [] => []
  | d :: rest =>
      if has_label d
      then mkLabelElement i i (getFontSize (depth d)) (truncatedLabel d) 1
             :: make_labels (S i) rest
      else make_labels (S i) rest
  end.

(** What a transition does on its [end] event. *)
Inductive OnEnd : Type :=
| ShowClickedLabel (clickedNode : nat)   (* the click handler's callback *)
| ShowAllLabels.                         (* handleResetZoom's callback *)

(** A transition scheduled on the zoom group: the [transform] it animates
    to and its [end] callback. *)
Record Transition : Type := mkTransition {
  target : Transform;
  on_end : OnEnd
}.

(** A hover callback supplied by the host, known by identity. *)
Definition Listener : Type := nat.

Record State : Type := mkState {
  onNodeHoverRef : option Listener;       (* onNodeHoverRef.current *)
  focusedNode : option AstNode;           (* React state, null is None *)
  nodes : list PackNode;                  (* root.descendants() of the last build *)
  zoom_transform : Transform;             (* attribute of g.zoom-group *)
  zoom_opacity : Z;                       (* style of g.zoom-group *)
  labelElements : list LabelElement;
  transition : option Transition;         (* the transition in flight *)
  calls : list (Listener * option AstNode) (* invocations of the hover callback, oldest first *)
}.

Inductive Event : Type :=
| SetListener (l : option Listener)   (* render with a new onNodeHover prop *)
| AstChange (packed : list PackNode)  (* the [ast] effect, with the new packed nodes *)
| Click (i : nat)                     (* click on the circle of nodes[i] *)
| MouseEnter (i : nat)
| MouseLeave (i : nat)
| ResetZoom                           (* handleResetZoom *)
| TransitionEnd.                      (* the transition in flight completes *)

(** The body of the [ast] effect: the SVG is emptied and rebuilt. *)
Definition build (packed : list PackNode) (s : State) : State :=
  mkState (onNodeHoverRef s) (focusedNode s) packed
          root_transform 1 (make_labels 0 packed) None (calls s).

(** First render: [useRef(onNodeHover)], [useState(null)], then the effect. *)
Definition mount (l : option Listener) (packed : list PackNode) : State :=
  build packed (mkState l None [] root_transform 1 [] None []).

(** [onNodeHoverRef.current?.(arg)]. *)
Definition notify (s : State) (arg : option AstNode) : list (Listener * option AstNode) :=
  match onNodeHoverRef s with
  | Some l => calls s ++ [(l, arg)]
  | None => calls s
  end.

(** [selectAll('.ring-label').style('opacity', v)]. *)
Definition set_opacity (v : Z) (ls : list LabelElement) : list LabelElement :=
  map (fun l => mkLabelElement (node l) (pathId l) (fontSize l) (content l) v) ls.

(** The transform computed by the click handler. *)
Definition click_transform (clickedNode : PackNode) : Transform :=
  let viewWidth := width - margin * 2 in
  let viewHeight := height - margin * 2 in
  let centerX := viewWidth / 2 in
  let centerY := viewHeight / 2 in
  let targetSize := Qmin viewWidth viewHeight in
  let scale := targetSize / (r clickedNode * 2) in
  let translateX := centerX - x clickedNode * scale in
  let translateY := centerY - y clickedNode * scale in
  mkTransform (margin + translateX) (margin + translateY) scale.

Definition on_click (i : nat) (clickedNode : PackNode) (s : State) : State :=
  mkState (onNodeHoverRef s)
          (Some (astNode (data clickedNode)))
          (nodes s)
          (zoom_transform s)
          (zoom_opacity s)
          (set_opacity 0 (labelElements s))
          (Some (mkTransition (click_transform clickedNode) (ShowClickedLabel i)))
          (notify s (Some (astNode (data clickedNode)))).

(** [handleResetZoom]: the target is written [translate(50, 50)]. *)
Definition handleResetZoom (s : State) : State :=
  mkState (onNodeHoverRef s) None (nodes s) (zoom_transform s) (zoom_opacity s)
          (labelElements s)
          (Some (mkTransition (mkTransform 50 50 1) ShowAllLabels))
          (calls s).

(** [labelElements.find(l => l.node === clickedNode)]. *)
Definition find_label (i : nat) (ls : list LabelElement) : option LabelElement :=
  find (fun l => Nat.eqb (node l) i) ls.

(** The [end] callbacks.  The click handler's one selects
    [clickedLabel.text], which [labelElements.push] filled with
    [textElement.node()?.parentElement]: the parent of the [text] element,
    that is the zoom group. *)
Definition run_on_end (e : OnEnd) (s : State) : State :=
  match e with
  | ShowClickedLabel i =>
      match find_label i (labelElements s) with
      | Some _ =>
          mkState (onNodeHoverRef s) (focusedNode s) (nodes s) (zoom_transform s)
                  1 (labelElements s) (transition s) (calls s)
      | None => s
      end
  | ShowAllLabels =>
      mkState (onNodeHoverRef s) (focusedNode s) (nodes s) (zoom_transform s)
              (zoom_opacity s) (set_opacity 1 (labelElements s)) (transition s) (calls s)
  end.

Definition finish (t : Transition) (s : State) : State :=
  run_on_end (on_end t)
    (mkState (onNodeHoverRef s) (focusedNode s) (nodes s) (target t)
             (zoom_opacity s) (labelElements s) None (calls s)).

Definition with_calls (c : list (Listener * option AstNode)) (s : State) : State :=
  mkState (onNodeHoverRef s) (focusedNode s) (nodes s) (zoom_transform s)
          (zoom_opacity s) (labelElements s) (transition s) c.

(** One event.  A pointer event on an index that has no circle cannot
    occur and leaves the state alone; a new transition on the zoom group
    replaces the one in flight, whose [end] never fires. *)
Definition step (s : State) (e : Event) : State :=
  match e with
  | SetListener l =>
      mkState l (focusedNode s) (nodes s) (zoom_transform s) (zoom_opacity s)
              (labelElements s) (transition s) (calls s)
  | AstChange packed => build packed s
  | Click i =>
      match nth_error (nodes s) i with
      | Some clickedNode => on_click i clickedNode s
      | None => s
      end
  | MouseEnter i =>
      match nth_error (nodes s) i with
      | Some d => with_calls (notify s (Some (astNode (data d)))) s
      | None => s
      end
  | MouseLeave i =>
      match nth_error (nodes s) i with
      | Some _ => with_calls (notify s None) s
      | None => s
      end
  | ResetZoom => handleResetZoom s
  | TransitionEnd =>
      match transition s with
      | Some t => finish t s
      | None => s
      end
  end.

Definition run (s : State) (evs : list Event) : State := fold_left step evs s.

(** States the component can be in. *)
Inductive reachable : State -> Prop :=
| reach_mount l packed : reachable (mount l packed)
| reach_step s e : reachable s -> reachable (step s e).

(** ** Notions the specification speaks of *)

(** The focused node is still in the tree: some packed node carries it. *)
Definition present (a : AstNode) (ns : list PackNode) : bool :=
  existsb (fun d => Nat.eqb (astNode (data d)) a) ns.

(** The label of [nodes[i]] can be seen: it has a label element whose
    opacity is not [0], inside a group whose opacity is not [0]. *)
Definition label_visible (s : State) (i : nat) : bool :=
  match find_label i (labelElements s) with
  | Some l => negb (opacity l =? 0)%Z && negb (zoom_opacity s =? 0)%Z
  | None => false
  end.

(** The specification's label policy under the current focus: the node
    acts as the top-level ring (it is the focused one) and its radius is
    above the legibility threshold. *)
Definition eligible (s : State) (d : PackNode) : bool :=
  match focusedNode s with
  | Some a => Nat.eqb (astNode (data d)) a && large_enough d
  | None => false
  end.

(** Where a circle is drawn under a view transform. *)
Definition view_x (t : Transform) (d : PackNode) : Q := translateX t + x d * scale t.
Definition view_y (t : Transform) (d : PackNode) : Q := translateY t + y d * scale t.
Definition view_r (t : Transform) (d : PackNode) : Q := r d * scale t.

(** ** Scenarios *)

(** The root circle as [pack] sizes it for the 700 x 500 interior
    (radius 250), carrying a 33-character name. *)
Definition long_root : PackNode :=
  mkPackNode (mkHierarchyNode "VariableDeclarationListExpression" (Some (JS.Num 1)) 0%nat [])
             0 350 250 250.

(** Leaves with a negative and with a missing weight. *)
Definition negative_leaf : HierarchyNode :=
  mkHierarchyNode "Identifier" (Some (JS.Num (-3))) 0%nat [].

Definition unweighted_leaf : HierarchyNode :=
  mkHierarchyNode "Identifier" None 0%nat [].

(** The scenario tree [A(B, C(D))] of unit weights, with packed circles
    nested as the layout nests them. *)
Definition hD : HierarchyNode := mkHierarchyNode "D" (Some (JS.Num 1)) 3%nat [].
Definition hC : HierarchyNode := mkHierarchyNode "C" (Some (JS.Num 1)) 2%nat [hD].
Definition hB : HierarchyNode := mkHierarchyNode "B" (Some (JS.Num 1)) 1%nat [].
Definition hA : HierarchyNode := mkHierarchyNode "A" (Some (JS.Num 1)) 0%nat [hB; hC].

Definition scenario : list PackNode :=
  [ mkPackNode hA 0 350 250 250;
    mkPackNode hB 1 200 250 60;
    mkPackNode hC 1 450 250 110;
    mkPackNode hD 2 450 250 50 ].

(** A later tree in which only a new root is left. *)
Definition rebuilt : list PackNode :=
  [ mkPackNode (mkHierarchyNode "A" (Some (JS.Num 1)) 7%nat []) 0 350 250 250 ].

(** ** Invariant of the label elements *)

(** Every label element belongs to a packed node that passed the creation
    test. *)
Definition labels_wf (s : State) : Prop :=
  forall l, In l (labelElements s) ->
    exists d, nth_error (nodes s) (node l) = Some d /\ has_label d = true.

(** ** Aggregates of a hierarchy *)

(** Number of nodes of a hierarchy. *)
Fixpoint count (d : HierarchyNode) : nat :=
  match d with
  | mkHierarchyNode _ _ _ cs => S (fold_right (fun c acc => (acc + count c)%nat) 0%nat cs)
  end.

(** [P] holds of a node and of all its descendants. *)
Fixpoint every (P : HierarchyNode -> Prop) (d : HierarchyNode) : Prop :=
  match d with
  | mkHierarchyNode _ _ _ cs => P d /\ fold_right (fun c acc => every P c /\ acc) True cs
  end.

(** The node's weight counts as one unit. *)
Definition unit_weight (d : HierarchyNode) : Prop :=
  exists q, weight d = JS.Num q /\ q == 1.


(** The rational a weight stands for. *)
Definition weight_q (d : HierarchyNode) : Q :=
  match weight d with
  | JS.Num q => q
  | JS.NaN => 0
  end.

(** The aggregate of [sum weight] as a rational, added up in the same
    order. *)
Fixpoint aggregate (d : HierarchyNode) : Q :=
  match d with
  | mkHierarchyNode _ _ _ cs => fold_right (fun c acc => acc + aggregate c) (weight_q d) cs
  end.

(** ** Invariants of the reachable states *)

(** The label elements are the ones built from the current nodes, all at
    one opacity, [0] or [1]. *)
Definition labels_inv (s : State) : Prop :=
  exists v, (v = 0 \/ v = 1)%Z /\
            labelElements s = set_opacity v (make_labels 0 (nodes s)).

(** The zoom group itself is never made transparent; and while the focus
    is Root, either nothing moves and the view is the root view with all
    labels shown, or the transition in flight is the one of the reset. *)
Definition rest_inv (s : State) : Prop :=
  zoom_opacity s = 1%Z /\
  (focusedNode s = None ->
   match transition s with
   | None => zoom_transform s = root_transform /\
             forall l, In l (labelElements s) -> opacity l = 1%Z
   | Some t => t = mkTransition (mkTransform 50 50 1) ShowAllLabels
   end).

(** Events that come from the pointer over a circle. *)
Definition is_pointer (e : Event) : bool :=
  match e with
  | Click _ | MouseEnter _ | MouseLeave _ => true
  | _ => false
  end.

(** Everything but the replacement of the hover callback. *)
Definition keeps_listener (e : Event) : bool :=
  match e with
  | SetListener _ => false
  | _ => true
  end.

(** ** Circles in layout and in view coordinates *)

(** Circle [(cx, cy, cr)] lies inside circle [(px, py, pr)]: the distance
    of the centres plus [cr] is at most [pr], written with squares. *)
Definition circle_inside (cx cy cr px py pr : Q) : Prop :=
  cr <= pr /\ (cx - px) * (cx - px) + (cy - py) * (cy - py) <= (pr - cr) * (pr - cr).

(** Two circles do not overlap: the distance of the centres is at least
    the sum of the radii. *)
Definition circle_apart (ax ay ar bx by' br : Q) : Prop :=
  (ar + br) * (ar + br) <= (ax - bx) * (ax - bx) + (ay - by') * (ay - by').

Definition inside_layout (c p : PackNode) : Prop :=
  circle_inside (x c) (y c) (r c) (x p) (y p) (r p).

Definition inside_view (t : Transform) (c p : PackNode) : Prop :=
  circle_inside (view_x t c) (view_y t c) (view_r t c)
                (view_x t p) (view_y t p) (view_r t p).

Definition apart_layout (a b : PackNode) : Prop :=
  circle_apart (x a) (y a) (r a) (x b) (y b) (r b).

Definition apart_view (t : Transform) (a b : PackNode) : Prop :=
  circle_apart (view_x t a) (view_y t a) (view_r t a)
               (view_x t b) (view_y t b) (view_r t b).

(** ** The parser test page ([App]) *)

(** A [ts.Node] as the page reads it: its [kind] and the children
    [ts.forEachChild] passes to the callback, in order. *)
Inductive TsNode : Type :=
| mkTsNode (kind : nat) (forEachChild : list TsNode).

(** [visit(node)] with the array [nodeTypes] threaded through: the node's
    type name is pushed, then every child is visited ([visit] returns
    nothing, so [ts.forEachChild] never stops early). *)
Fixpoint visit (getNodeTypeName : nat -> string) (node : TsNode)
    (nodeTypes : list string) : list string :=
  match node with
  | mkTsNode k cs =>
      fold_left (fun acc c => visit getNodeTypeName c acc) cs
                (nodeTypes ++ [getNodeTypeName k])
  end.

(** The result of [parseCode] as [App] reads it: [success] with [ast], or
    not with [error]. *)
Inductive ParseResult : Type :=
| ParseFailure (error : string)
| ParseSuccess (ast : TsNode).

(** What [App] renders: the error, or the list of node types with the
    number announced under it ([nodeTypes.length]). *)
Inductive Page : Type :=
| ErrorPage (error : string)
| TypesPage (items : list string) (found : nat).

Definition App (getNodeTypeName : nat -> string) (result : ParseResult) : Page :=
  match result with
  | ParseFailure e => ErrorPage e
  | ParseSuccess ast =>
      let nodeTypes := visit getNodeTypeName ast [] in
      TypesPage nodeTypes (List.length nodeTypes)
  end.

(** The kinds of a syntax tree in document order, and its size. *)
Fixpoint preorder (node : TsNode) : list nat :=
  match node with
  | mkTsNode k cs => k :: flat_map preorder cs
  end.

Fixpoint ts_size (node : TsNode) : nat :=
  match node with
  | mkTsNode _ cs => S (fold_right (fun c acc => (ts_size c + acc)%nat) 0%nat cs)
  end.

(** ** [SegmentedControl] and the mode buttons of [CodeEditor] *)

(** A rendered button: its React key, its caption, whether it is drawn as
    the selected one, and the value its click hands to the host. *)
Record SegmentButton : Type := mkSegmentButton {
  key : string;
  caption : string;
  highlighted : bool;
  emits : string
}.

(** [SegmentedControl({ options, selected, onChange })]; [toLowerCase] is
    JavaScript's [String.prototype.toLowerCase]. *)
Definition SegmentedControl (toLowerCase : string -> string)
    (options : list string) (selected : string) : list SegmentButton :=
  map (fun option =>
         mkSegmentButton option option
                         (String.eqb selected (toLowerCase option))
                         (toLowerCase option))
      options.

(** The two mode buttons of [CodeEditor]. *)
Definition CodeEditor_modes (mode : string) : list SegmentButton :=
  [ mkSegmentButton "JavaScript" "JavaScript" (String.eqb mode "javascript") "javascript";
    mkSegmentButton "TypeScript" "TypeScript" (String.eqb mode "typescript") "typescript" ].

(** [toLowerCase] on the letters A to Z, enough for the captions used. *)
Definition lower_ascii (c : ascii) : ascii :=
  let n := nat_of_ascii c in
  if (65 <=? n)%nat && (n <=? 90)%nat then ascii_of_nat (n + 32) else c.

Fixpoint lower (s : string) : string :=
  match s with
  | EmptyString => EmptyString
  | String c rest => String (lower_ascii c) (lower rest)
  end.

(** * Properties *)

(** ** Strings *)

Lemma length_append (s t : string) :
  String.length (s ++ t) = (String.length s + String.length t)%nat.
Proof.
  induction s as [| c s IH]; simpl; [reflexivity | now rewrite IH].
Qed.

Lemma length_substring_0 (n : nat) (s : string) :
  (n <= String.length s)%nat -> String.length (substring 0 n s) = n.
Proof.
  revert s; induction n as [| n IH]; intros s Hn.
  - destruct s; reflexivity.
  - destruct s as [| c s]; simpl in *; [lia |].
    rewrite IH; [reflexivity | lia].
Qed.

(** [slice(0, e)] with [0 <= e <= length] keeps the first [e] characters. *)
Lemma slice_prefix (s : string) (e : Z) :
  (0 <= e <= Z.of_nat (String.length s))%Z ->
  JS.slice s 0 e = substring 0 (Z.to_nat e) s.
Proof.
  intros He. unfold JS.slice.
  replace (0 <? 0)%Z with false by reflexivity.
  destruct (e <? 0)%Z eqn:Hneg; [apply Z.ltb_lt in Hneg; lia |].
  rewrite (Z.min_l 0) by lia.
  rewrite (Z.min_l e) by lia.
  rewrite Z.sub_0_r, Z.max_l by lia.
  reflexivity.
Qed.

(** ** Truncation *)

(** A label within the budget is left as it is. *)
Lemma truncate_fits (label : string) (m : Z) :
  (Z.of_nat (String.length label) <= m)%Z -> truncate label m = label.
Proof.
  intros Hfit. unfold truncate.
  destruct (Z.of_nat (String.length label) >? m)%Z eqn:Hgt; [| reflexivity].
  apply Z.gtb_lt in Hgt. lia.
Qed.

(** A label over the budget becomes its first [m - 2] characters followed
    by the three-character ellipsis: [m + 1] characters in all. *)
Lemma truncate_long (label : string) (m : Z) :
  (2 <= m < Z.of_nat (String.length label))%Z ->
  truncate label m = (substring 0 (Z.to_nat (m - 2)) label ++ "...")%string /\
  Z.of_nat (String.length (truncate label m)) = (m + 1)%Z.
Proof.
  intros Hm. unfold truncate.
  destruct (Z.of_nat (String.length label) >? m)%Z eqn:Hgt.
  - rewrite slice_prefix by lia. split; [reflexivity |].
    rewrite length_append, length_substring_0 by lia.
    simpl String.length. lia.
  - rewrite Z.gtb_ltb in Hgt. apply Z.ltb_ge in Hgt. lia.
Qed.

Lemma has_label_iff (d : PackNode) :
  has_label d = true <-> depth d = 0%Z /\ 30 < r d.
Proof.
  unfold has_label, large_enough.
  rewrite andb_true_iff, Z.eqb_eq, negb_true_iff.
  split; intros [H0 Hr]; split; try exact H0.
  - apply Qnot_le_lt. intros Hle. apply Qle_bool_iff in Hle. congruence.
  - destruct (Qle_bool (r d) 30) eqn:E; [| reflexivity].
    apply Qle_bool_iff in E. exfalso. exact (Qlt_not_le _ _ Hr E).
Qed.

(** A drawn label has font size 40 and a budget of at least 3 characters. *)
Lemma drawn_label_budget (d : PackNode) :
  has_label d = true ->
  getFontSize (depth d) = 40%Z /\ (3 <= maxChars d (getFontSize (depth d)))%Z.
Proof.
  intros Hlab. apply has_label_iff in Hlab. destruct Hlab as [Hdepth Hr].
  rewrite Hdepth. split; [reflexivity |].
  change (getFontSize 0) with 40%Z.
  unfold maxChars, JS.Math_floor, arcRadius.
  rewrite <- (Qfloor_Z 3). apply Qfloor_resp_le.
  apply Qle_shift_div_l; [reflexivity |].
  unfold JS.Math_PI.
  setoid_replace (inject_Z 3 * (inject_Z 40 * (6 # 10))) with 72 by reflexivity.
  lra.
Qed.

(** Every drawn label that is over its budget [m] is rendered with
    [m + 1] characters. *)
Lemma drawn_label_one_over_budget (d : PackNode) :
  has_label d = true ->
  (maxChars d (getFontSize (depth d)) < Z.of_nat (String.length (name (data d))))%Z ->
  Z.of_nat (String.length (truncatedLabel d)) = (maxChars d (getFontSize (depth d)) + 1)%Z.
Proof.
  intros Hlab Hlong.
  destruct (drawn_label_budget d Hlab) as [_ Hm].
  unfold truncatedLabel. apply truncate_long. lia.
Qed.

(** Every drawn label within its budget is rendered as it is. *)
Lemma drawn_label_fits (d : PackNode) :
  (Z.of_nat (String.length (name (data d))) <= maxChars d (getFontSize (depth d)))%Z ->
  truncatedLabel d = name (data d).
Proof.
  intros Hfit. unfold truncatedLabel. apply truncate_fits. exact Hfit.
Qed.

(** C3, at a label that does not fit: for the root circle of radius 250 at
    font size 40 the budget [floor((r - 5) * pi / (0.6 * f))] is 32
    characters; a 33-character name is cut to its first 30 characters and
    the three-character ellipsis is appended, so the rendered text has 33
    characters, one more than the budget. *)
Theorem C3_truncated_label_over_budget :
  has_label long_root = true /\
  maxChars long_root (getFontSize (depth long_root)) = 32%Z /\
  truncatedLabel long_root = "VariableDeclarationListExpress..."%string /\
  Z.of_nat (String.length (truncatedLabel long_root)) = 33%Z.
Proof.
  vm_compute. repeat split; reflexivity.
Qed.

(** ** Padding and font size *)

Lemma getFontSize_antitone (d1 d2 : Z) :
  (d1 <= d2)%Z -> (getFontSize d2 <= getFontSize d1)%Z.
Proof.
  unfold getFontSize. lia.
Qed.

Lemma getFontSize_floor (d : Z) : (minSize <= getFontSize d)%Z.
Proof.
  unfold getFontSize, minSize. lia.
Qed.

(** C2, as stated, fails: the separation does not follow the font size of
    the depth.  At depth 1 the font size is 37 and the padding 40; at depth
    6 the font size has reached its floor 24 and the padding is still 40. *)
Lemma C2_padding_ignores_depth :
  pack_padding 1 <> getFontSize 1 /\
  getFontSize 6 = minSize /\ pack_padding 6 = 40%Z.
Proof.
  repeat split. vm_compute. discriminate.
Qed.

(** C2, amended: the separation handed to the layout is the same at every
    depth, the font size of depth 0 (40); it is therefore weakly decreasing
    in the depth and never below the minimum font size, while the font size
    itself decreases with the depth down to that minimum. *)
Theorem C2_padding_is_max_font_size (d1 d2 : Z) :
  (0 <= d1 < d2)%Z ->
  pack_padding d1 = getFontSize 0 /\
  pack_padding d2 = getFontSize 0 /\
  (pack_padding d1 >= pack_padding d2)%Z /\
  (pack_padding d2 >= minSize)%Z /\
  (getFontSize d1 >= getFontSize d2)%Z /\
  (getFontSize d2 >= minSize)%Z.
Proof.
  intros Hd.
  pose proof (getFontSize_antitone d1 d2) as Hanti.
  pose proof (getFontSize_floor d2) as Hfloor.
  unfold pack_padding, maxFontSize.
  change (getFontSize 0) with 40%Z. unfold minSize in *.
  repeat split; lia.
Qed.

Lemma C2_padding_is_max_font_size_witness :
  (0 <= 0 < 1)%Z /\
  pack_padding 0 = getFontSize 0 /\
  pack_padding 1 = getFontSize 0 /\
  (pack_padding 0 >= pack_padding 1)%Z /\
  (pack_padding 1 >= minSize)%Z /\
  (getFontSize 0 >= getFontSize 1)%Z /\
  (getFontSize 1 >= minSize)%Z.
Proof.
  split; [lia | apply (C2_padding_is_max_font_size 0 1); lia].
Defined.

(** ** Weights *)

(** C4, as stated, fails on a negative weight: [-3 || 1] is [-3], so the
    node enters the aggregate with weight -3, not 1. *)
Lemma C4_negative_weight_kept :
  weight negative_leaf = JS.Num (-3) /\
  weight negative_leaf <> JS.Num 1 /\
  sum weight negative_leaf = JS.Num (-3).
Proof.
  repeat split. vm_compute. discriminate.
Qed.

(** C4, amended: a node whose weight is missing ([undefined]), [NaN] or
    zero counts as the unit weight 1 in the aggregate; every other weight,
    a negative one included, is used as it is. *)
Theorem C4_weight_defaults_when_falsy (d : HierarchyNode) :
  (value d = None \/ value d = Some JS.NaN \/
   (exists q, value d = Some (JS.Num q) /\ q == 0) ->
   weight d = JS.Num 1 /\
   sum weight d =
     fold_right (fun c acc => JS.add acc (sum weight c)) (JS.Num 1) (children d)) /\
  (forall q, value d = Some (JS.Num q) -> ~ q == 0 ->
   weight d = JS.Num q /\
   sum weight d =
     fold_right (fun c acc => JS.add acc (sum weight c)) (JS.Num q) (children d)).
Proof.
  destruct d as [n v a cs]. simpl value. simpl children. split.
  - intros Hv.
    assert (Hw : weight (mkHierarchyNode n v a cs) = JS.Num 1).
    { unfold weight. simpl value.
      destruct Hv as [-> | [-> | (q & -> & Hq)]]; simpl; try reflexivity.
      apply Qeq_bool_iff in Hq. now rewrite Hq. }
    split; [exact Hw |].
    simpl sum. rewrite Hw. reflexivity.
  - intros q -> Hq.
    assert (Hw : weight (mkHierarchyNode n (Some (JS.Num q)) a cs) = JS.Num q).
    { unfold weight. simpl.
      destruct (Qeq_bool q 0) eqn:E; [| reflexivity].
      apply Qeq_bool_iff in E. contradiction. }
    split; [exact Hw |].
    simpl sum. rewrite Hw. unfold JS.or, JS.falsy.
    destruct (Qeq_bool q 0) eqn:E; [| reflexivity].
    apply Qeq_bool_iff in E. contradiction.
Qed.

Lemma C4_weight_defaults_when_falsy_witness :
  weight unweighted_leaf = JS.Num 1 /\ weight negative_leaf = JS.Num (-3).
Proof.
  split.
  - apply (proj1 (C4_weight_defaults_when_falsy unweighted_leaf)).
    left. reflexivity.
  - apply (proj2 (C4_weight_defaults_when_falsy negative_leaf) (-3)).
    + reflexivity.
    + intros H. vm_compute in H. discriminate H.
Defined.

(** ** The zoom transform *)

Lemma finish_transform (t : Transition) (s : State) :
  zoom_transform (finish t s) = target t.
Proof.
  unfold finish, run_on_end.
  destruct (on_end t) as [i |]; simpl; [| reflexivity].
  destruct (find_label i (labelElements s)); reflexivity.
Qed.

(** C6: a click on a circle of centre [(x, y)] and radius [r > 0] starts a
    transition whose target has [scale = min(viewW, viewH) / (2 r)] and
    [translate = margin + (viewCentre - (x, y) * scale)], where
    [viewW x viewH] is the viewport minus the margins; the transition ends
    on exactly that transform, under which the circle is centred in the
    interior box with diameter [min(viewW, viewH)]. *)
Theorem C6_click_target_transform (s : State) (i : nat) (d : PackNode) :
  nth_error (nodes s) i = Some d ->
  0 < r d ->
  let viewW := width - margin * 2 in
  let viewH := height - margin * 2 in
  exists t : Transform,
    option_map target (transition (step s (Click i))) = Some t /\
    zoom_transform (step (step s (Click i)) TransitionEnd) = t /\
    scale t == Qmin viewW viewH / (2 * r d) /\
    translateX t == margin + (viewW / 2 - x d * scale t) /\
    translateY t == margin + (viewH / 2 - y d * scale t) /\
    view_x t d == margin + viewW / 2 /\
    view_y t d == margin + viewH / 2 /\
    2 * view_r t d == Qmin viewW viewH.
Proof.
  intros Hd Hr viewW viewH.
  exists (click_transform d).
  assert (Hnz : ~ r d == 0) by (intros E; rewrite E in Hr; discriminate Hr).
  split; [simpl; rewrite Hd; reflexivity |].
  split.
  { simpl step at 2. rewrite Hd. unfold step, on_click. simpl transition.
    apply finish_transform. }
  unfold view_x, view_y, view_r, click_transform; simpl.
  fold viewW viewH.
  repeat split; try reflexivity; field; exact Hnz.
Qed.

Lemma C6_click_target_transform_witness :
  let s := mount None scenario in
  let d := mkPackNode hC 1 450 250 110 in
  exists t : Transform,
    option_map target (transition (step s (Click 2%nat))) = Some t /\
    zoom_transform (step (step s (Click 2%nat)) TransitionEnd) = t /\
    scale t == Qmin (width - margin * 2) (height - margin * 2) / (2 * r d) /\
    translateX t == margin + ((width - margin * 2) / 2 - x d * scale t) /\
    translateY t == margin + ((height - margin * 2) / 2 - y d * scale t) /\
    view_x t d == margin + (width - margin * 2) / 2 /\
    view_y t d == margin + (height - margin * 2) / 2 /\
    2 * view_r t d == Qmin (width - margin * 2) (height - margin * 2).
Proof.
  exact (C6_click_target_transform (mount None scenario) 2%nat
           (mkPackNode hC 1 450 250 110) eq_refl eq_refl).
Defined.

(** In the scenario, the click on C ends with C drawn at the centre
    (400, 300) of the 800 x 600 surface with radius 250: it spans the
    500-high interior box exactly. *)
Example click_C_fills_interior :
  let s := run (mount None scenario) [Click 2%nat; TransitionEnd] in
  let d := mkPackNode hC 1 450 250 110 in
  view_x (zoom_transform s) d == 400 /\
  view_y (zoom_transform s) d == 300 /\
  view_r (zoom_transform s) d == 250 /\
  view_y (zoom_transform s) d - view_r (zoom_transform s) d == margin /\
  view_y (zoom_transform s) d + view_r (zoom_transform s) d == height - margin.
Proof.
  vm_compute. repeat split.
Qed.

(** ** Focus, reset and rebuild *)

(** C5, as stated, fails: after a click on C (syntax node 2) the tree is
    rebuilt without that node; the focus still references node 2, which is
    absent from the new tree, and is not Root. *)
Lemma C5_focus_survives_rebuild :
  let s := run (mount None scenario) [Click 2%nat; AstChange rebuilt] in
  focusedNode s = Some 2%nat /\
  present 2%nat (nodes s) = false /\
  focusedNode s <> None.
Proof.
  vm_compute. repeat split. discriminate.
Qed.

(** C5, amended: a rebuild of the tree recreates the zoom group with the
    root transform, at once (no transition is left in flight), with every
    label visible, whether or not the focused node is still in the tree;
    the focused-node reference itself is left as it was. *)
Theorem C5_rebuild_resets_view_only (s : State) (packed : list PackNode) :
  let s' := step s (AstChange packed) in
  nodes s' = packed /\
  zoom_transform s' = root_transform /\
  transition s' = None /\
  (forall l, In l (labelElements s') -> opacity l = 1%Z) /\
  focusedNode s' = focusedNode s.
Proof.
  simpl. repeat split.
  intros l. generalize 0%nat.
  induction packed as [| d rest IH]; intros k Hin; simpl in Hin.
  - contradiction.
  - destruct (has_label d).
    + destruct Hin as [<- | Hin]; [reflexivity | exact (IH _ Hin)].
    + exact (IH _ Hin).
Qed.

(** C7: whatever happened before (clicks, completed or interrupted
    transitions, hover, rebuilds), a reset whose transition runs to its end
    leaves the zoom group at [translate(margin, margin)] with scale 1, the
    transform it was created with, and the focus at Root. *)
Theorem C7_reset_restores_root_transform
    (l : option Listener) (packed : list PackNode) (evs : list Event) :
  let s := run (mount l packed) evs in
  let s' := step (step s ResetZoom) TransitionEnd in
  zoom_transform s' = mkTransform margin margin 1 /\
  zoom_transform s' = zoom_transform (mount l packed) /\
  focusedNode s' = None /\
  transition s' = None.
Proof.
  intros s s'. subst s'. generalize s. clear s. intros s.
  repeat split.
Qed.

(** ** Labels under focus *)

Lemma make_labels_sound (ns : list PackNode) (k : nat) (l : LabelElement) :
  In l (make_labels k ns) ->
  (k <= node l)%nat /\
  exists d, nth_error ns (node l - k) = Some d /\ has_label d = true.
Proof.
  revert k. induction ns as [| d rest IH]; intros k Hin; simpl in Hin.
  - contradiction.
  - assert (Hrest : In l (make_labels (S k) rest) ->
                    (k <= node l)%nat /\
                    exists d0, nth_error (d :: rest) (node l - k) = Some d0 /\
                               has_label d0 = true).
    { intros H. destruct (IH _ H) as (Hle & d0 & Hnth & Hlab).
      split; [lia |]. exists d0. split; [| exact Hlab].
      replace (node l - k)%nat with (S (node l - S k)) by lia. exact Hnth. }
    destruct (has_label d) eqn:Hlab.
    + destruct Hin as [<- | Hin]; [| exact (Hrest Hin)].
      simpl. split; [lia |]. exists d.
      rewrite Nat.sub_diag. split; [reflexivity | exact Hlab].
    + exact (Hrest Hin).
Qed.

Lemma in_set_opacity (v : Z) (ls : list LabelElement) (l : LabelElement) :
  In l (set_opacity v ls) ->
  opacity l = v /\ exists l0, In l0 ls /\ node l = node l0.
Proof.
  unfold set_opacity. rewrite in_map_iff.
  intros (l0 & <- & Hin). simpl. split; [reflexivity |].
  exists l0. split; [exact Hin | reflexivity].
Qed.

Lemma build_wf (packed : list PackNode) (s : State) : labels_wf (build packed s).
Proof.
  intros l Hin. simpl in Hin.
  destruct (make_labels_sound _ _ _ Hin) as (_ & d & Hnth & Hlab).
  rewrite Nat.sub_0_r in Hnth. exists d. split; assumption.
Qed.

Lemma run_on_end_wf (e : OnEnd) (s : State) : labels_wf s -> labels_wf (run_on_end e s).
Proof.
  intros Hwf. destruct e as [i |]; simpl.
  - destruct (find_label i (labelElements s)); exact Hwf.
  - intros l Hin. simpl in Hin.
    destruct (in_set_opacity _ _ _ Hin) as (_ & l0 & Hin0 & ->).
    exact (Hwf l0 Hin0).
Qed.

Lemma step_wf (s : State) (e : Event) : labels_wf s -> labels_wf (step s e).
Proof.
  intros Hwf. destruct e as [l | packed | i | i | i | |]; simpl.
  - exact Hwf.
  - apply build_wf.
  - destruct (nth_error (nodes s) i); [| exact Hwf].
    intros l Hin. simpl in Hin.
    destruct (in_set_opacity _ _ _ Hin) as (_ & l0 & Hin0 & ->).
    exact (Hwf l0 Hin0).
  - destruct (nth_error (nodes s) i); exact Hwf.
  - destruct (nth_error (nodes s) i); exact Hwf.
  - exact Hwf.
  - destruct (transition s) as [t |]; [| exact Hwf].
    unfold finish. apply run_on_end_wf. exact Hwf.
Qed.

Lemma reachable_wf (s : State) : reachable s -> labels_wf s.
Proof.
  induction 1 as [l packed | s e _ IH].
  - apply build_wf.
  - apply step_wf, IH.
Qed.

Lemma find_label_some (i : nat) (ls : list LabelElement) (l : LabelElement) :
  find_label i ls = Some l -> In l ls /\ node l = i.
Proof.
  unfold find_label. intros H. apply find_some in H.
  destruct H as [Hin Heq]. apply Nat.eqb_eq in Heq. split; assumption.
Qed.

Lemma hidden_not_visible (s : State) (j : nat) :
  (forall l, In l (labelElements s) -> opacity l = 0%Z) ->
  label_visible s j = false.
Proof.
  intros Hall. unfold label_visible.
  destruct (find_label j (labelElements s)) as [l |] eqn:E; [| reflexivity].
  apply find_label_some in E. destruct E as [Hin _].
  rewrite (Hall l Hin). reflexivity.
Qed.

Lemma step_click (s : State) (i : nat) (d : PackNode) :
  nth_error (nodes s) i = Some d -> step s (Click i) = on_click i d s.
Proof.
  intros Hd. unfold step. rewrite Hd. reflexivity.
Qed.

(** The [end] callback of a click on a node without label element changes
    no label. *)
Lemma finish_click_labels (s : State) (i : nat) (d : PackNode) :
  find_label i (labelElements (on_click i d s)) = None ->
  labelElements (step (on_click i d s) TransitionEnd) = labelElements (on_click i d s).
Proof.
  intros Hnone.
  change (step (on_click i d s) TransitionEnd)
    with (finish (mkTransition (click_transform d) (ShowClickedLabel i)) (on_click i d s)).
  unfold finish, run_on_end. cbn [on_end labelElements] in *.
  rewrite Hnone. reflexivity.
Qed.

(** C8, as stated, fails for a node below the root: after the click on C
    and the end of its transition, C acts as the top-level ring and its
    radius 110 is above the threshold 30, yet no label of C is visible (C
    has no label element). *)
Lemma C8_focused_child_has_no_label :
  let s := run (mount None scenario) [Click 2%nat; TransitionEnd] in
  nth_error (nodes s) 2 = Some (mkPackNode hC 1 450 250 110) /\
  transition s = None /\
  eligible s (mkPackNode hC 1 450 250 110) = true /\
  label_visible s 2 = false.
Proof.
  vm_compute. repeat split.
Qed.

(** C8, amended: a click hides every ring label at once.  Label elements
    exist only for packed nodes of depth 0 with radius above 30, whatever
    the focus; when the clicked node is not such a node, no label is
    visible after its transition has completed. *)
Theorem C8_click_hides_labels (s : State) (i : nat) (d : PackNode) :
  reachable s ->
  nth_error (nodes s) i = Some d ->
  (forall l, In l (labelElements (step s (Click i))) -> opacity l = 0%Z) /\
  (forall j, label_visible (step s (Click i)) j = false) /\
  (forall l, In l (labelElements s) ->
     exists d', nth_error (nodes s) (node l) = Some d' /\
                depth d' = 0%Z /\ 30 < r d') /\
  (~ (depth d = 0%Z /\ 30 < r d) ->
   forall j, label_visible (step (step s (Click i)) TransitionEnd) j = false).
Proof.
  intros Hreach Hd.
  pose proof (reachable_wf s Hreach) as Hwf.
  assert (Hhid : forall l, In l (labelElements (step s (Click i))) -> opacity l = 0%Z).
  { simpl. rewrite Hd. simpl. intros l Hin.
    apply in_set_opacity in Hin. tauto. }
  split; [exact Hhid |].
  split; [intros j; apply hidden_not_visible, Hhid |].
  split.
  { intros l Hin. destruct (Hwf l Hin) as (d' & Hnth & Hlab).
    apply has_label_iff in Hlab. exists d'. tauto. }
  intros Hno j.
  assert (Hnone : find_label i (labelElements (step s (Click i))) = None).
  { destruct (find_label i (labelElements (step s (Click i)))) as [l |] eqn:E;
      [| reflexivity].
    exfalso. apply find_label_some in E. destruct E as [Hin Hnode].
    destruct (step_wf s (Click i) Hwf l Hin) as (d' & Hnth & Hlab).
    assert (Hnodes : nodes (step s (Click i)) = nodes s)
      by (simpl; rewrite Hd; reflexivity).
    rewrite Hnodes, Hnode, Hd in Hnth. injection Hnth as <-.
    apply Hno, has_label_iff, Hlab. }
  assert (Hstep : labelElements (step (step s (Click i)) TransitionEnd)
                  = labelElements (step s (Click i))).
  { rewrite (step_click s i d Hd) in *.
    apply finish_click_labels. exact Hnone. }
  apply hidden_not_visible. rewrite Hstep. exact Hhid.
Qed.

Lemma C8_click_hides_labels_witness :
  let s := mount None scenario in
  (forall l, In l (labelElements (step s (Click 2%nat))) -> opacity l = 0%Z) /\
  (forall j, label_visible (step s (Click 2%nat)) j = false) /\
  (forall l, In l (labelElements s) ->
     exists d', nth_error (nodes s) (node l) = Some d' /\
                depth d' = 0%Z /\ 30 < r d') /\
  (~ (depth (mkPackNode hC 1 450 250 110) = 0%Z /\
      30 < r (mkPackNode hC 1 450 250 110)) ->
   forall j, label_visible (step (step s (Click 2%nat)) TransitionEnd) j = false).
Proof.
  exact (C8_click_hides_labels (mount None scenario) 2%nat
           (mkPackNode hC 1 450 250 110) (reach_mount None scenario) eq_refl).
Defined.

(** The label of the root itself: the [end] callback of a click on the
    root sets the opacity of the zoom group (the element stored in the
    label entry), so the root's label keeps the opacity 0 given by the
    click until a reset shows all labels again. *)
Example click_root_label_stays_hidden :
  let s := run (mount None scenario) [Click 0%nat; TransitionEnd] in
  has_label (mkPackNode hA 0 350 250 250) = true /\
  eligible s (mkPackNode hA 0 350 250 250) = true /\
  label_visible s 0 = false /\
  label_visible (run s [ResetZoom; TransitionEnd]) 0 = true.
Proof.
  vm_compute. repeat split.
Qed.

(** ** Hover pass-through *)

(** C10: a click on the circle of a node calls the listener currently held
    in [onNodeHoverRef] once, with the clicked node's syntax node, besides
    setting the focus and starting the zoom transition; the listener called
    is the latest one supplied. *)
Theorem C10_click_notifies_listener
    (s : State) (i : nat) (d : PackNode) (l : Listener) :
  nth_error (nodes s) i = Some d ->
  onNodeHoverRef s = Some l ->
  calls (step s (Click i)) = calls s ++ [(l, Some (astNode (data d)))] /\
  focusedNode (step s (Click i)) = Some (astNode (data d)) /\
  transition (step s (Click i)) =
    Some (mkTransition (click_transform d) (ShowClickedLabel i)) /\
  (forall l' : Listener,
     calls (run s [SetListener (Some l'); Click i]) =
     calls s ++ [(l', Some (astNode (data d)))]).
Proof.
  intros Hd Hl. simpl. rewrite Hd. simpl.
  unfold notify. rewrite Hl. simpl.
  repeat split.
Qed.

Lemma C10_click_notifies_listener_witness :
  let s := mount (Some 5%nat) scenario in
  calls (step s (Click 2%nat)) = calls s ++ [(5%nat, Some 2%nat)] /\
  focusedNode (step s (Click 2%nat)) = Some 2%nat /\
  transition (step s (Click 2%nat)) =
    Some (mkTransition (click_transform (mkPackNode hC 1 450 250 110))
                       (ShowClickedLabel 2%nat)) /\
  (forall l' : Listener,
     calls (run s [SetListener (Some l'); Click 2%nat]) =
     calls s ++ [(l', Some 2%nat)]).
Proof.
  exact (C10_click_notifies_listener (mount (Some 5%nat) scenario) 2%nat
           (mkPackNode hC 1 450 250 110) 5%nat eq_refl eq_refl).
Defined.

(** * Further properties of the component *)

(** ** Font size *)

(** X1: for a depth that is not negative the font size lies between 24
    and 40; it is [40 - 3 * depth] down to depth 5 and stays at 24 from
    depth 6 on. *)
Theorem X1_getFontSize_shape (d : Z) :
  (0 <= d)%Z ->
  (24 <= getFontSize d <= 40)%Z /\
  (d <= 5 -> getFontSize d = 40 - 3 * d)%Z /\
  (6 <= d -> getFontSize d = 24)%Z.
Proof.
  intros Hd. unfold getFontSize. lia.
Qed.

Lemma X1_getFontSize_shape_witness :
  (0 <= 3)%Z /\
  (24 <= getFontSize 3 <= 40)%Z /\
  (3 <= 5 -> getFontSize 3 = 40 - 3 * 3)%Z /\
  (6 <= 3 -> getFontSize 3 = 24)%Z.
Proof.
  split; [lia | apply (X1_getFontSize_shape 3); lia].
Defined.

(** ** Aggregate weights *)

(** Induction over a hierarchy with the hypothesis for every child. *)
Lemma HierarchyNode_nested_ind (P : HierarchyNode -> Prop) :
  (forall n v a cs, Forall P cs -> P (mkHierarchyNode n v a cs)) ->
  forall d, P d.
Proof.
  intros Hnode. fix IH 1. intros [n v a cs]. apply Hnode.
  induction cs as [| c cs IHcs]; constructor; [apply IH | exact IHcs].
Qed.

Lemma weight_is_number (d : HierarchyNode) :
  exists q, weight d = JS.Num q /\ ~ q == 0.
Proof.
  unfold weight. destruct (value d) as [[| q] |]; simpl.
  - exists 1. split; [reflexivity | discriminate].
  - destruct (Qeq_bool q 0) eqn:E.
    + exists 1. split; [reflexivity | discriminate].
    + exists q. split; [reflexivity |].
      intros H. apply Qeq_bool_iff in H. congruence.
  - exists 1. split; [reflexivity | discriminate].
Qed.

Lemma weight_weight_q (d : HierarchyNode) : weight d = JS.Num (weight_q d).
Proof.
  unfold weight_q. destruct (weight_is_number d) as (q & -> & _). reflexivity.
Qed.

Lemma weight_q_nonzero (d : HierarchyNode) : ~ weight_q d == 0.
Proof.
  unfold weight_q. destruct (weight_is_number d) as (q & -> & Hq). exact Hq.
Qed.

Lemma sum_unfold (f : HierarchyNode -> JS.number) n v a cs :
  sum f (mkHierarchyNode n v a cs) =
  fold_right (fun c acc => JS.add acc (sum f c))
             (JS.or (Some (f (mkHierarchyNode n v a cs))) (JS.Num 0)) cs.
Proof. reflexivity. Qed.

Lemma aggregate_unfold n v a cs :
  aggregate (mkHierarchyNode n v a cs) =
  fold_right (fun c acc => acc + aggregate c) (weight_q (mkHierarchyNode n v a cs)) cs.
Proof. reflexivity. Qed.

(** [sum weight] is the rational [aggregate]. *)
Lemma sum_aggregate (d : HierarchyNode) : sum weight d = JS.Num (aggregate d).
Proof.
  induction d as [n v a cs IH] using HierarchyNode_nested_ind.
  rewrite sum_unfold, aggregate_unfold.
  set (d := mkHierarchyNode n v a cs).
  assert (Hown : JS.or (Some (weight d)) (JS.Num 0) = JS.Num (weight_q d)).
  { rewrite (weight_weight_q d). unfold JS.or, JS.falsy.
    destruct (Qeq_bool (weight_q d) 0) eqn:E; [| reflexivity].
    apply Qeq_bool_iff in E. destruct (weight_q_nonzero d E). }
  rewrite Hown. clearbody d. generalize (weight_q d). intros q0.
  induction IH as [| c cs Hc _ IHcs]; simpl; [reflexivity |].
  rewrite IHcs, Hc. reflexivity.
Qed.


Lemma every_unfold (P : HierarchyNode -> Prop) n v a cs :
  every P (mkHierarchyNode n v a cs) <->
  P (mkHierarchyNode n v a cs) /\ Forall (every P) cs.
Proof.
  simpl. apply and_iff_compat_l.
  induction cs as [| c cs IH]; simpl.
  - split; intros _; [constructor | exact I].
  - rewrite IH. split.
    + intros [Hc Hcs]. constructor; assumption.
    + intros H. inversion H; subst. split; assumption.
Qed.

Lemma aggregate_children_count (cs : list HierarchyNode) (q0 : Q) :
  Forall (fun c => aggregate c == inject_Z (Z.of_nat (count c))) cs ->
  fold_right (fun c acc => acc + aggregate c) q0 cs ==
  q0 + inject_Z (Z.of_nat (fold_right (fun c acc => (acc + count c)%nat) 0%nat cs)).
Proof.
  induction 1 as [| c cs Hc _ IH]; simpl.
  - ring.
  - rewrite IH, Hc, Nat2Z.inj_add, inject_Z_plus. ring.
Qed.

Lemma aggregate_unit (d : HierarchyNode) :
  every unit_weight d -> aggregate d == inject_Z (Z.of_nat (count d)).
Proof.
  induction d as [n v a cs IH] using HierarchyNode_nested_ind.
  rewrite every_unfold, aggregate_unfold. intros [Hd Hcs].
  rewrite aggregate_children_count.
  - destruct Hd as (q & Hw & Hq).
    unfold weight_q. rewrite Hw, Hq.
    change (count (mkHierarchyNode n v a cs))
      with (S (fold_right (fun c acc => (acc + count c)%nat) 0%nat cs)).
    rewrite Nat2Z.inj_succ, <- Z.add_1_l, inject_Z_plus. reflexivity.
  - rewrite Forall_forall in *. intros c Hin. apply (IH c Hin), (Hcs c Hin).
Qed.

(** X3: when every node of a hierarchy weighs one unit (its [value] is
    missing, zero, [NaN] or 1), the aggregate of the hierarchy is the
    number of its nodes, inner nodes included. *)
Theorem X3_unit_weights_count_nodes (d : HierarchyNode) :
  every unit_weight d ->
  exists q, sum weight d = JS.Num q /\ q == inject_Z (Z.of_nat (count d)).
Proof.
  intros Hunit. exists (aggregate d).
  split; [apply sum_aggregate | apply aggregate_unit, Hunit].
Qed.





Lemma X3_unit_weights_count_nodes_witness :
  every unit_weight hA /\
  exists q, sum weight hA = JS.Num q /\ q == inject_Z (Z.of_nat (count hA)).
Proof.
  assert (H : every unit_weight hA).
  { cbv [every hA hB hC hD fold_right unit_weight].
    repeat split; exists 1; split; reflexivity. }
  split; [exact H | exact (X3_unit_weights_count_nodes hA H)].
Defined.


(** ** Label elements of the reachable states *)

Lemma set_opacity_twice (v w : Z) (ls : list LabelElement) :
  set_opacity v (set_opacity w ls) = set_opacity v ls.
Proof.
  unfold set_opacity. rewrite map_map. reflexivity.
Qed.

Lemma set_opacity_fresh (k : nat) (ns : list PackNode) :
  set_opacity 1 (make_labels k ns) = make_labels k ns.
Proof.
  revert k. induction ns as [| d rest IH]; intros k; simpl; [reflexivity |].
  destruct (has_label d); simpl; now rewrite IH.
Qed.

Lemma step_labels_inv (s : State) (e : Event) : labels_inv s -> labels_inv (step s e).
Proof.
  intros (v & Hv & Hl).
  destruct e as [l | packed | i | i | i | |]; simpl.
  - exists v. split; assumption.
  - exists 1%Z. split; [right; reflexivity |]. symmetry. apply set_opacity_fresh.
  - destruct (nth_error (nodes s) i); [| exists v; split; assumption].
    exists 0%Z. split; [left; reflexivity |]. simpl.
    rewrite Hl. apply set_opacity_twice.
  - destruct (nth_error (nodes s) i); exists v; split; assumption.
  - destruct (nth_error (nodes s) i); exists v; split; assumption.
  - exists v. split; assumption.
  - destruct (transition s) as [t |]; [| exists v; split; assumption].
    unfold finish, run_on_end. destruct (on_end t) as [i |]; simpl.
    + destruct (find_label i (labelElements s)); exists v; split; assumption.
    + exists 1%Z. split; [right; reflexivity |].
      rewrite Hl. apply set_opacity_twice.
Qed.

Lemma reachable_labels_inv (s : State) : reachable s -> labels_inv s.
Proof.
  induction 1 as [l packed | s e _ IH].
  - exists 1%Z. split; [right; reflexivity |]. symmetry. apply set_opacity_fresh.
  - apply step_labels_inv, IH.
Qed.

Lemma find_label_below (v : Z) (k i : nat) (ns : list PackNode) :
  (i < k)%nat -> find_label i (set_opacity v (make_labels k ns)) = None.
Proof.
  intros Hlt.
  destruct (find_label i (set_opacity v (make_labels k ns))) as [l |] eqn:E;
    [| reflexivity].
  apply find_label_some in E. destruct E as [Hin Hnode].
  apply in_set_opacity in Hin. destruct Hin as (_ & l0 & Hin0 & Heq).
  apply make_labels_sound in Hin0. lia.
Qed.

(** The label found for the [j]-th of the nodes numbered from [k]. *)
Lemma find_label_make (v : Z) (ns : list PackNode) (k j : nat) (d : PackNode) :
  nth_error ns j = Some d ->
  find_label (k + j) (set_opacity v (make_labels k ns)) =
  if has_label d
  then Some (mkLabelElement (k + j) (k + j) (getFontSize (depth d)) (truncatedLabel d) v)
  else None.
Proof.
  revert k j. induction ns as [| d0 rest IH]; intros k j Hj.
  - destruct j; discriminate Hj.
  - destruct j as [| j]; simpl in Hj.
    + injection Hj as ->. rewrite Nat.add_0_r. simpl.
      destruct (has_label d); simpl.
      * unfold find_label. simpl. rewrite Nat.eqb_refl. reflexivity.
      * apply find_label_below. lia.
    + replace (k + S j)%nat with (S k + j)%nat by lia.
      rewrite <- (IH (S k) j Hj).
      assert (Hm : (k < S k + j)%nat) by lia.
      generalize dependent (S k + j)%nat. intros m Hm.
      simpl make_labels.
      destruct (has_label d0); [| reflexivity].
      unfold find_label. simpl.
      destruct (Nat.eqb k m) eqn:E; [| reflexivity].
      apply Nat.eqb_eq in E. lia.
Qed.

Lemma make_labels_ids (k : nat) (ns : list PackNode) :
  map pathId (make_labels k ns) = map node (make_labels k ns) /\
  NoDup (map node (make_labels k ns)).
Proof.
  revert k. induction ns as [| d rest IH]; intros k; simpl.
  - split; [reflexivity | constructor].
  - destruct (IH (S k)) as [Hid Hnd].
    destruct (has_label d); simpl; [| split; assumption].
    split; [now rewrite Hid |].
    constructor; [| exact Hnd].
    rewrite in_map_iff. intros (l & Hnode & Hin).
    apply make_labels_sound in Hin. lia.
Qed.

Lemma set_opacity_ids (v : Z) (ls : list LabelElement) :
  map pathId (set_opacity v ls) = map pathId ls /\
  map node (set_opacity v ls) = map node ls.
Proof.
  unfold set_opacity. rewrite !map_map. split; reflexivity.
Qed.

(** The label element of a node in a reachable state. *)
Lemma find_label_reachable (s : State) (i : nat) (d : PackNode) :
  reachable s ->
  nth_error (nodes s) i = Some d ->
  exists v, (v = 0 \/ v = 1)%Z /\
    find_label i (labelElements s) =
    if has_label d
    then Some (mkLabelElement i i (getFontSize (depth d)) (truncatedLabel d) v)
    else None.
Proof.
  intros Hreach Hd.
  destruct (reachable_labels_inv s Hreach) as (v & Hv & Hl).
  pose proof (find_label_make v (nodes s) 0 i d Hd) as Hfind.
  simpl in Hfind. rewrite <- Hl in Hfind.
  exists v. split; assumption.
Qed.

(** X5: in every state the component can reach, a packed node has a
    label element exactly when its depth is 0 and its radius is above 30;
    that element carries the node's index as path id, the font size 40 and
    the truncated name of the node, whatever was clicked since. *)
Theorem X5_label_exactly_for_large_root (s : State) (i : nat) (d : PackNode) :
  reachable s ->
  nth_error (nodes s) i = Some d ->
  ((exists l, find_label i (labelElements s) = Some l) <->
   depth d = 0%Z /\ 30 < r d) /\
  (forall l, find_label i (labelElements s) = Some l ->
     pathId l = i /\ fontSize l = 40%Z /\ content l = truncatedLabel d /\
     (opacity l = 0 \/ opacity l = 1)%Z).
Proof.
  intros Hreach Hd.
  destruct (find_label_reachable s i d Hreach Hd) as (v & Hv & Hfind).
  rewrite Hfind. rewrite <- has_label_iff.
  destruct (has_label d) eqn:Hlab.
  - split.
    + split; [reflexivity | intros _; eexists; reflexivity].
    + intros l [= <-]. simpl.
      apply has_label_iff in Hlab. destruct Hlab as [-> _].
      repeat split. exact Hv.
  - split.
    + split; [intros [l Hl0]; discriminate Hl0 | discriminate].
    + intros l Hl0. discriminate Hl0.
Qed.

Lemma X5_label_exactly_for_large_root_witness :
  let s := run (mount None scenario) [Click 2%nat; TransitionEnd] in
  let d := mkPackNode hA 0 350 250 250 in
  ((exists l, find_label 0 (labelElements s) = Some l) <->
   depth d = 0%Z /\ 30 < r d) /\
  (forall l, find_label 0 (labelElements s) = Some l ->
     pathId l = 0%nat /\ fontSize l = 40%Z /\ content l = truncatedLabel d /\
     (opacity l = 0 \/ opacity l = 1)%Z).
Proof.
  exact (X5_label_exactly_for_large_root
           (run (mount None scenario) [Click 2%nat; TransitionEnd]) 0%nat
           (mkPackNode hA 0 350 250 250)
           (reach_step _ TransitionEnd
              (reach_step _ (Click 2%nat) (reach_mount None scenario)))
           eq_refl).
Defined.

(** X6: the path ids of the label elements ([circle-path-i]) are pairwise
    different in every reachable state, each is the index of the node the
    label was made for, and that index is one of the current nodes. *)
Theorem X6_label_path_ids_unique (s : State) :
  reachable s ->
  NoDup (map pathId (labelElements s)) /\
  forall l, In l (labelElements s) ->
    pathId l = node l /\ (node l < List.length (nodes s))%nat.
Proof.
  intros Hreach.
  destruct (reachable_labels_inv s Hreach) as (v & _ & Hl).
  destruct (make_labels_ids 0 (nodes s)) as [Hid Hnd].
  destruct (set_opacity_ids v (make_labels 0 (nodes s))) as [Hp Hn].
  rewrite Hl. split.
  - rewrite Hp, Hid. exact Hnd.
  - intros l Hin. split.
    + assert (Hmap : map pathId (set_opacity v (make_labels 0 (nodes s)))
                   = map node (set_opacity v (make_labels 0 (nodes s))))
        by (rewrite Hp, Hn; exact Hid).
      clear - Hin Hmap.
      induction (set_opacity v (make_labels 0 (nodes s))) as [| l0 ls IH];
        [contradiction |].
      simpl in Hmap. injection Hmap as H0 Hrest.
      destruct Hin as [<- | Hin]; [exact H0 | exact (IH Hin Hrest)].
    + rewrite <- Hl in Hin.
      destruct (reachable_wf s Hreach l Hin) as (d & Hnth & _).
      apply nth_error_Some. congruence.
Qed.

Lemma X6_label_path_ids_unique_witness :
  let s := run (mount None scenario) [Click 2%nat; TransitionEnd] in
  NoDup (map pathId (labelElements s)) /\
  forall l, In l (labelElements s) ->
    pathId l = node l /\ (node l < List.length (nodes s))%nat.
Proof.
  exact (X6_label_path_ids_unique
           (run (mount None scenario) [Click 2%nat; TransitionEnd])
           (reach_step _ TransitionEnd
              (reach_step _ (Click 2%nat) (reach_mount None scenario)))).
Defined.

(** ** Focus states at rest *)

Lemma fresh_labels_shown (k : nat) (ns : list PackNode) (l : LabelElement) :
  In l (make_labels k ns) -> opacity l = 1%Z.
Proof.
  rewrite <- set_opacity_fresh. intros Hin.
  apply in_set_opacity in Hin. tauto.
Qed.

Lemma step_rest_inv (s : State) (e : Event) : rest_inv s -> rest_inv (step s e).
Proof.
  intros [Hop Hroot].
  destruct e as [l | packed | i | i | i | |]; simpl.
  - split; assumption.
  - split; [reflexivity |]. simpl. intros _.
    split; [reflexivity | apply fresh_labels_shown].
  - destruct (nth_error (nodes s) i); [| split; assumption].
    split; [exact Hop |]. simpl. discriminate.
  - destruct (nth_error (nodes s) i); split; assumption.
  - destruct (nth_error (nodes s) i); split; assumption.
  - split; [exact Hop |]. simpl. reflexivity.
  - destruct (transition s) as [t |] eqn:Ht; [| split; [exact Hop | now rewrite Ht]].
    unfold finish, run_on_end. destruct (on_end t) as [i |] eqn:Hend; simpl.
    + destruct (find_label i (labelElements s)); simpl;
        (split; [assumption || reflexivity |]);
        intros Hnone; specialize (Hroot Hnone); subst t; discriminate Hend.
    + split; [exact Hop |]. simpl. intros Hnone.
      specialize (Hroot Hnone). subst t. simpl.
      split; [reflexivity |].
      intros l Hin. apply in_set_opacity in Hin. tauto.
Qed.

Lemma reachable_rest_inv (s : State) : reachable s -> rest_inv s.
Proof.
  induction 1 as [l packed | s e _ IH].
  - split; [reflexivity |]. simpl. intros _.
    split; [reflexivity | apply fresh_labels_shown].
  - apply step_rest_inv, IH.
Qed.

(** X7: whenever the focus is Root (the reset button is not rendered) and
    no transition is in flight, the zoom group carries the root transform
    and every label is shown; a transition in flight while the focus is
    Root is the reset's, on its way to the root transform; and in every
    reachable state the zoom group itself is opaque. *)
Theorem X7_root_at_rest_is_default_view (s : State) :
  reachable s ->
  zoom_opacity s = 1%Z /\
  (focusedNode s = None -> forall t, transition s = Some t ->
   target t = root_transform /\ on_end t = ShowAllLabels) /\
  (focusedNode s = None -> transition s = None ->
   zoom_transform s = root_transform /\
   (forall l, In l (labelElements s) -> opacity l = 1%Z) /\
   (forall i d, nth_error (nodes s) i = Some d -> has_label d = true ->
      label_visible s i = true)).
Proof.
  intros Hreach.
  destruct (reachable_rest_inv s Hreach) as [Hop Hroot].
  split; [exact Hop |]. split.
  { intros Hfocus t Ht. specialize (Hroot Hfocus). rewrite Ht in Hroot.
    subst t. split; reflexivity. }
  intros Hfocus Hrest. specialize (Hroot Hfocus). rewrite Hrest in Hroot.
  destruct Hroot as [Ht Hshown].
  split; [exact Ht |]. split; [exact Hshown |].
  intros i d Hd Hlab.
  destruct (find_label_reachable s i d Hreach Hd) as (v & _ & Hl).
  rewrite Hlab in Hl.
  unfold label_visible. rewrite Hl, Hop.
  apply find_label_some in Hl. rewrite (Hshown _ (proj1 Hl)). reflexivity.
Qed.

Lemma X7_root_at_rest_is_default_view_witness :
  let s := run (mount None scenario) [Click 2%nat; ResetZoom; TransitionEnd] in
  zoom_opacity s = 1%Z /\
  (focusedNode s = None -> forall t, transition s = Some t ->
   target t = root_transform /\ on_end t = ShowAllLabels) /\
  (focusedNode s = None -> transition s = None ->
   zoom_transform s = root_transform /\
   (forall l, In l (labelElements s) -> opacity l = 1%Z) /\
   (forall i d, nth_error (nodes s) i = Some d -> has_label d = true ->
      label_visible s i = true)).
Proof.
  exact (X7_root_at_rest_is_default_view
           (run (mount None scenario) [Click 2%nat; ResetZoom; TransitionEnd])
           (reach_step _ TransitionEnd
              (reach_step _ ResetZoom
                 (reach_step _ (Click 2%nat) (reach_mount None scenario))))).
Defined.

(** ** Interrupted transitions *)

(** X8: the last action wins.  A click that arrives while the reset is
    still animating replaces it: when the animation ends the view is the
    clicked node's, the focus is on it and the labels are still hidden (the
    reset's callback never runs).  A reset that arrives while a click is
    still animating replaces that one: the view ends on the root transform
    with the focus at Root and every label shown. *)
Theorem X8_last_action_wins (s : State) (i : nat) (d : PackNode) :
  nth_error (nodes s) i = Some d ->
  (let a := run s [ResetZoom; Click i; TransitionEnd] in
   focusedNode a = Some (astNode (data d)) /\
   zoom_transform a = click_transform d /\
   transition a = None /\
   (forall l, In l (labelElements a) -> opacity l = 0%Z)) /\
  (let b := run s [Click i; ResetZoom; TransitionEnd] in
   focusedNode b = None /\
   zoom_transform b = root_transform /\
   transition b = None /\
   (forall l, In l (labelElements b) -> opacity l = 1%Z)).
Proof.
  intros Hd. split.
  - assert (Hstep : run s [ResetZoom; Click i; TransitionEnd]
                    = step (on_click i d (handleResetZoom s)) TransitionEnd).
    { unfold run. cbn [fold_left].
      rewrite (step_click (step s ResetZoom) i d Hd). reflexivity. }
    cbv zeta. rewrite Hstep.
    change (step (on_click i d (handleResetZoom s)) TransitionEnd)
      with (finish (mkTransition (click_transform d) (ShowClickedLabel i))
                   (on_click i d (handleResetZoom s))).
    split; [| split; [apply finish_transform | split]].
    + unfold finish, run_on_end. simpl.
      destruct (find_label i (set_opacity 0 (labelElements s))); reflexivity.
    + unfold finish, run_on_end. simpl.
      destruct (find_label i (set_opacity 0 (labelElements s))); reflexivity.
    + intros l. unfold finish, run_on_end. simpl.
      destruct (find_label i (set_opacity 0 (labelElements s))); simpl;
        intros Hin; apply in_set_opacity in Hin; tauto.
  - assert (Hstep : run s [Click i; ResetZoom; TransitionEnd]
                    = step (handleResetZoom (on_click i d s)) TransitionEnd).
    { unfold run. cbn [fold_left].
      rewrite (step_click s i d Hd). reflexivity. }
    cbv zeta. rewrite Hstep. simpl.
    repeat split.
    intros l Hin. apply in_set_opacity in Hin. tauto.
Qed.

Lemma X8_last_action_wins_witness :
  let s := mount None scenario in
  let d := mkPackNode hC 1 450 250 110 in
  (let a := run s [ResetZoom; Click 2%nat; TransitionEnd] in
   focusedNode a = Some (astNode (data d)) /\
   zoom_transform a = click_transform d /\
   transition a = None /\
   (forall l, In l (labelElements a) -> opacity l = 0%Z)) /\
  (let b := run s [Click 2%nat; ResetZoom; TransitionEnd] in
   focusedNode b = None /\
   zoom_transform b = root_transform /\
   transition b = None /\
   (forall l, In l (labelElements b) -> opacity l = 1%Z)).
Proof.
  exact (X8_last_action_wins (mount None scenario) 2%nat
           (mkPackNode hC 1 450 250 110) eq_refl).
Defined.

(** ** The hover callback *)

(** X9: pointer-enter followed by pointer-leave over a circle calls the
    current listener exactly twice, first with the node's syntax node and
    then with null, and changes nothing else: focus, transform, labels and
    the transition in flight are as before. *)
Theorem X9_hover_enter_leave (s : State) (i : nat) (d : PackNode) (l : Listener) :
  nth_error (nodes s) i = Some d ->
  onNodeHoverRef s = Some l ->
  let s' := run s [MouseEnter i; MouseLeave i] in
  calls s' = calls s ++ [(l, Some (astNode (data d))); (l, None)] /\
  with_calls (calls s) s' = with_calls (calls s) s.
Proof.
  intros Hd Hl. unfold run. simpl. rewrite Hd. simpl. rewrite Hd.
  unfold notify. simpl. rewrite Hl. simpl.
  rewrite <- app_assoc. split; reflexivity.
Qed.

Lemma X9_hover_enter_leave_witness :
  let s := mount (Some 5%nat) scenario in
  let s' := run s [MouseEnter 1%nat; MouseLeave 1%nat] in
  calls s' = calls s ++ [(5%nat, Some 1%nat); (5%nat, None)] /\
  with_calls (calls s) s' = with_calls (calls s) s.
Proof.
  exact (X9_hover_enter_leave (mount (Some 5%nat) scenario) 1%nat
           (mkPackNode hB 1 200 250 60) 5%nat eq_refl eq_refl).
Defined.

(** What one event adds to the log of calls. *)
Lemma step_calls (s : State) (e : Event) :
  exists suffix,
    calls (step s e) = calls s ++ suffix /\
    (List.length suffix <= if is_pointer e then 1 else 0)%nat /\
    (forall c, In c suffix -> onNodeHoverRef s = Some (fst c)).
Proof.
  assert (Hnotify : forall arg, exists suffix,
            notify s arg = calls s ++ suffix /\ (List.length suffix <= 1)%nat /\
            (forall c, In c suffix -> onNodeHoverRef s = Some (fst c))).
  { intros arg. unfold notify. destruct (onNodeHoverRef s) as [l |].
    - exists [(l, arg)]. split; [reflexivity |]. split; [simpl; lia |].
      intros c [<- | []]. reflexivity.
    - exists []. split; [now rewrite app_nil_r |]. split; [simpl; lia |].
      intros c []. }
  assert (Hsame : exists suffix : list (Listener * option AstNode),
            calls s = calls s ++ suffix /\ (List.length suffix <= 0)%nat /\
            (forall c, In c suffix -> onNodeHoverRef s = Some (fst c))).
  { exists []. split; [now rewrite app_nil_r |]. split; [simpl; lia |].
    intros c []. }
  destruct e as [l | packed | i | i | i | |]; simpl; try exact Hsame.
  - destruct (nth_error (nodes s) i); [apply Hnotify |].
    destruct Hsame as (sf & H1 & H2 & H3). exists sf. repeat split; auto; lia.
  - destruct (nth_error (nodes s) i); [apply Hnotify |].
    destruct Hsame as (sf & H1 & H2 & H3). exists sf. repeat split; auto; lia.
  - destruct (nth_error (nodes s) i); [apply Hnotify |].
    destruct Hsame as (sf & H1 & H2 & H3). exists sf. repeat split; auto; lia.
  - destruct (transition s) as [t |]; [| exact Hsame].
    unfold finish, run_on_end. destruct (on_end t) as [i |]; simpl.
    + destruct (find_label i (labelElements s)); exact Hsame.
    + exact Hsame.
Qed.

Lemma step_listener (s : State) (e : Event) :
  keeps_listener e = true -> onNodeHoverRef (step s e) = onNodeHoverRef s.
Proof.
  destruct e as [l | packed | i | i | i | |]; simpl; intros H;
    try discriminate H; try reflexivity.
  - destruct (nth_error (nodes s) i); reflexivity.
  - destruct (nth_error (nodes s) i); reflexivity.
  - destruct (nth_error (nodes s) i); reflexivity.
  - destruct (transition s) as [t |]; [| reflexivity].
    unfold finish, run_on_end. destruct (on_end t) as [i |]; simpl.
    + destruct (find_label i (labelElements s)); reflexivity.
    + reflexivity.
Qed.

(** X10: the log of calls only grows, and by at most one call for each
    pointer event (click, enter, leave); no other event calls the listener. *)
Theorem X10_calls_at_most_one_per_pointer_event (s : State) (evs : list Event) :
  exists suffix,
    calls (run s evs) = calls s ++ suffix /\
    (List.length suffix <= List.length (filter is_pointer evs))%nat.
Proof.
  revert s. induction evs as [| e evs IH]; intros s.
  - exists []. split; [simpl; now rewrite app_nil_r | simpl; lia].
  - destruct (step_calls s e) as (sf1 & H1 & Hlen1 & _).
    destruct (IH (step s e)) as (sf2 & H2 & Hlen2).
    exists (sf1 ++ sf2). split.
    + change (run s (e :: evs)) with (run (step s e) evs).
      rewrite H2, H1, app_assoc. reflexivity.
    + rewrite length_app. simpl filter.
      destruct (is_pointer e); simpl; lia.
Qed.

(** X11: after the host has supplied a listener (or none), every call made
    until the next replacement goes to that listener; with none supplied
    nothing is called at all. *)
Theorem X11_calls_go_to_latest_listener
    (s : State) (l : option Listener) (evs : list Event) :
  forallb keeps_listener evs = true ->
  exists suffix,
    calls (run (step s (SetListener l)) evs) = calls s ++ suffix /\
    (forall c, In c suffix -> l = Some (fst c)) /\
    (l = None -> suffix = []).
Proof.
  intros Hkeep.
  assert (Hgen : forall s0, onNodeHoverRef s0 = l ->
            exists suffix, calls (run s0 evs) = calls s0 ++ suffix /\
                           (forall c, In c suffix -> l = Some (fst c))).
  { induction evs as [| e evs IH]; intros s0 Hl.
    - exists []. split; [simpl; now rewrite app_nil_r | intros c []].
    - simpl in Hkeep. apply andb_true_iff in Hkeep. destruct Hkeep as [He Hrest].
      destruct (step_calls s0 e) as (sf1 & H1 & _ & Hto).
      destruct (IH Hrest (step s0 e)) as (sf2 & H2 & Hto2).
      { rewrite step_listener by exact He. exact Hl. }
      exists (sf1 ++ sf2). split.
      + change (run s0 (e :: evs)) with (run (step s0 e) evs).
        rewrite H2, H1, app_assoc. reflexivity.
      + intros c Hin. apply in_app_or in Hin. destruct Hin as [Hin | Hin].
        * rewrite <- Hl. apply Hto, Hin.
        * apply Hto2, Hin. }
  destruct (Hgen (step s (SetListener l)) eq_refl) as (suffix & Hcalls & Hto).
  exists suffix. split; [exact Hcalls |]. split; [exact Hto |].
  intros ->. destruct suffix as [| c rest]; [reflexivity |].
  specialize (Hto c (or_introl eq_refl)). discriminate Hto.
Qed.

Lemma X11_calls_go_to_latest_listener_witness :
  forallb keeps_listener [MouseEnter 1%nat; Click 2%nat; TransitionEnd] = true /\
  exists suffix,
    calls (run (step (mount (Some 5%nat) scenario) (SetListener (Some 8%nat)))
               [MouseEnter 1%nat; Click 2%nat; TransitionEnd])
    = calls (mount (Some 5%nat) scenario) ++ suffix /\
    (forall c, In c suffix -> Some 8%nat = Some (fst c)) /\
    (Some 8%nat = None -> suffix = []).
Proof.
  split; [reflexivity |].
  exact (X11_calls_go_to_latest_listener (mount (Some 5%nat) scenario) (Some 8%nat)
           [MouseEnter 1%nat; Click 2%nat; TransitionEnd] eq_refl).
Defined.

(** ** Geometry of the zoom *)

Lemma click_scale_pos (d : PackNode) : 0 < r d -> 0 < scale (click_transform d).
Proof.
  intros Hr. simpl.
  apply Qlt_shift_div_l; [lra |].
  rewrite Qmult_0_l.
  destruct (Q.min_dec (width - margin * 2) (height - margin * 2)) as [-> | ->];
    reflexivity.
Qed.

(** X12: a view transform with positive scale keeps the packing intact:
    a circle lies inside another on screen exactly when it does in the
    layout, and two circles are apart on screen exactly when they are in the
    layout. *)
Theorem X12_zoom_keeps_packing (t : Transform) (a b : PackNode) :
  0 < scale t ->
  (inside_view t a b <-> inside_layout a b) /\
  (apart_view t a b <-> apart_layout a b).
Proof.
  intros Hk.
  unfold inside_view, inside_layout, apart_view, apart_layout,
    circle_inside, circle_apart, view_x, view_y, view_r.
  set (k := scale t) in *.
  assert (Hkk : 0 < k * k) by nra.
  assert (Hdist : (translateX t + x a * k - (translateX t + x b * k)) *
                  (translateX t + x a * k - (translateX t + x b * k)) +
                  (translateY t + y a * k - (translateY t + y b * k)) *
                  (translateY t + y a * k - (translateY t + y b * k))
                  == (k * k) * ((x a - x b) * (x a - x b) + (y a - y b) * (y a - y b)))
    by ring.
  assert (Hdiff : (r b * k - r a * k) * (r b * k - r a * k)
                  == (k * k) * ((r b - r a) * (r b - r a))) by ring.
  assert (Hsum : (r a * k + r b * k) * (r a * k + r b * k)
                 == (k * k) * ((r a + r b) * (r a + r b))) by ring.
  rewrite Hdist, Hdiff, Hsum.
  split; split.
  - intros [Hr Hd]. split.
    + apply (Qmult_le_r _ _ k Hk). exact Hr.
    + apply (Qmult_le_l _ _ (k * k) Hkk). exact Hd.
  - intros [Hr Hd]. split.
    + apply (Qmult_le_r _ _ k Hk). exact Hr.
    + apply (Qmult_le_l _ _ (k * k) Hkk). exact Hd.
  - intros Hd. apply (Qmult_le_l _ _ (k * k) Hkk). exact Hd.
  - intros Hd. apply (Qmult_le_l _ _ (k * k) Hkk). exact Hd.
Qed.

Lemma X12_zoom_keeps_packing_witness :
  let t := click_transform (mkPackNode hC 1 450 250 110) in
  let a := mkPackNode hD 2 450 250 50 in
  let b := mkPackNode hC 1 450 250 110 in
  0 < scale t /\
  (inside_view t a b <-> inside_layout a b) /\
  (apart_view t a b <-> apart_layout a b).
Proof.
  split; [reflexivity |].
  exact (X12_zoom_keeps_packing (click_transform (mkPackNode hC 1 450 250 110))
           (mkPackNode hD 2 450 250 50) (mkPackNode hC 1 450 250 110) eq_refl).
Defined.

Lemma square_bound (a b D : Q) :
  0 <= D -> a * a + b * b <= D * D -> - D <= a /\ a <= D.
Proof.
  intros HD Hsq.
  assert (Hb : 0 <= b * b).
  { destruct (Qlt_le_dec b 0) as [Hneg | Hpos].
    - assert (H : 0 <= (- b) * (- b)) by (apply Qmult_le_0_compat; lra). lra.
    - apply Qmult_le_0_compat; exact Hpos. }
  split.
  - destruct (Qlt_le_dec a (- D)) as [Hlt | Hle]; [exfalso | exact Hle].
    assert (H : 0 < (- D - a) * (D - a)) by (apply Qmult_lt_0_compat; lra). lra.
  - destruct (Qlt_le_dec D a) as [Hlt | Hle]; [exfalso | exact Hle].
    assert (H : 0 < (a - D) * (a + D)) by (apply Qmult_lt_0_compat; lra). lra.
Qed.

(** X13: after a click on a circle of positive radius, every circle that
    lies inside it in the layout is drawn inside the square of side
    [min(viewW, viewH)] centred in the interior box, hence on screen. *)
Theorem X13_zoomed_content_on_screen (d c : PackNode) :
  0 < r d ->
  inside_layout c d ->
  let t := click_transform d in
  let viewW := width - margin * 2 in
  let viewH := height - margin * 2 in
  let half := Qmin viewW viewH / 2 in
  margin + viewW / 2 - half <= view_x t c - view_r t c /\
  view_x t c + view_r t c <= margin + viewW / 2 + half /\
  margin + viewH / 2 - half <= view_y t c - view_r t c /\
  view_y t c + view_r t c <= margin + viewH / 2 + half.
Proof.
  intros Hr [Hrc Hsq] t viewW viewH half.
  pose proof (click_scale_pos d Hr) as Hk. fold t in Hk.
  assert (Hnz : ~ r d == 0) by (intros E; rewrite E in Hr; discriminate Hr).
  assert (Hhalf : scale t * r d == half).
  { unfold t, half. simpl. fold viewW viewH. field. exact Hnz. }
  assert (Hvx : view_x t c == margin + viewW / 2 + scale t * (x c - x d)).
  { unfold view_x, t. simpl. fold viewW viewH. field. exact Hnz. }
  assert (Hvy : view_y t c == margin + viewH / 2 + scale t * (y c - y d)).
  { unfold view_y, t. simpl. fold viewW viewH. field. exact Hnz. }
  assert (Hvr : view_r t c == scale t * r c) by (unfold view_r; ring).
  assert (HD : 0 <= r d - r c) by lra.
  destruct (square_bound (x c - x d) (y c - y d) (r d - r c) HD Hsq) as [Hx1 Hx2].
  assert (Hsq' : (y c - y d) * (y c - y d) + (x c - x d) * (x c - x d)
                 <= (r d - r c) * (r d - r c)) by lra.
  destruct (square_bound (y c - y d) (x c - x d) (r d - r c) HD Hsq') as [Hy1 Hy2].
  rewrite Hvx, Hvy, Hvr, <- Hhalf.
  set (k := scale t) in *.
  assert (Hmul : forall u v, u <= v -> k * u <= k * v).
  { intros u v Huv. apply Qmult_le_l; assumption. }
  pose proof (Hmul _ _ Hx1) as Ex1. pose proof (Hmul _ _ Hx2) as Ex2.
  pose proof (Hmul _ _ Hy1) as Ey1. pose proof (Hmul _ _ Hy2) as Ey2.
  repeat split; lra.
Qed.

Lemma X13_zoomed_content_on_screen_witness :
  let d := mkPackNode hC 1 450 250 110 in
  let c := mkPackNode hD 2 450 250 50 in
  let t := click_transform d in
  let viewW := width - margin * 2 in
  let viewH := height - margin * 2 in
  let half := Qmin viewW viewH / 2 in
  margin + viewW / 2 - half <= view_x t c - view_r t c /\
  view_x t c + view_r t c <= margin + viewW / 2 + half /\
  margin + viewH / 2 - half <= view_y t c - view_r t c /\
  view_y t c + view_r t c <= margin + viewH / 2 + half.
Proof.
  apply (X13_zoomed_content_on_screen (mkPackNode hC 1 450 250 110)
           (mkPackNode hD 2 450 250 50)).
  - reflexivity.
  - split; vm_compute; discriminate.
Defined.

(** X14: the zoom never shrinks a circle that is no larger than half the
    shorter side of the interior box (as every packed circle is): its scale
    is at least 1; of two circles the smaller gets the larger scale; and a
    click on a circle placed as the root is (centre of the interior box,
    radius half its shorter side) asks for the root transform itself. *)
Theorem X14_zoom_scale (d : PackNode) :
  0 < r d ->
  let viewW := width - margin * 2 in
  let viewH := height - margin * 2 in
  (r d <= Qmin viewW viewH / 2 -> 1 <= scale (click_transform d)) /\
  (forall d', 0 < r d' -> r d' <= r d ->
     scale (click_transform d) <= scale (click_transform d')) /\
  (x d == viewW / 2 -> y d == viewH / 2 -> r d == Qmin viewW viewH / 2 ->
   translateX (click_transform d) == translateX root_transform /\
   translateY (click_transform d) == translateY root_transform /\
   scale (click_transform d) == scale root_transform).
Proof.
  intros Hr viewW viewH.
  assert (Hmin : Qmin viewW viewH == 500).
  { unfold viewW, viewH. vm_compute. reflexivity. }
  assert (Hnz : ~ r d == 0) by (intros E; rewrite E in Hr; discriminate Hr).
  assert (Hscale : forall e, scale (click_transform e) = Qmin viewW viewH / (r e * 2))
    by reflexivity.
  split; [| split].
  - intros Hle. rewrite Hscale. rewrite Hmin in *.
    setoid_replace (500 / 2) with 250 in Hle by reflexivity.
    apply Qle_shift_div_l; lra.
  - intros d' Hr' Hle. rewrite !Hscale, Hmin.
    apply Qle_shift_div_l; [lra |].
    assert (E : 500 / (r d * 2) * (r d' * 2) == 500 * (r d' / r d)) by (field; exact Hnz).
    rewrite E.
    assert (Hq : r d' / r d <= 1) by (apply Qle_shift_div_r; lra).
    lra.
  - intros Hx Hy Hrad. rewrite Hmin in Hrad.
    setoid_replace (500 / 2) with 250 in Hrad by reflexivity.
    assert (Hs : scale (click_transform d) == 1).
    { rewrite Hscale, Hmin, Hrad. reflexivity. }
    split; [| split; [| exact Hs]].
    + change (translateX (click_transform d))
        with (margin + (viewW / 2 - x d * scale (click_transform d))).
      rewrite Hs, Hx. simpl. ring.
    + change (translateY (click_transform d))
        with (margin + (viewH / 2 - y d * scale (click_transform d))).
      rewrite Hs, Hy. simpl. ring.
Qed.

Lemma X14_zoom_scale_witness :
  let d := mkPackNode hA 0 350 250 250 in
  let viewW := width - margin * 2 in
  let viewH := height - margin * 2 in
  (r d <= Qmin viewW viewH / 2 -> 1 <= scale (click_transform d)) /\
  (forall d', 0 < r d' -> r d' <= r d ->
     scale (click_transform d) <= scale (click_transform d')) /\
  (x d == viewW / 2 -> y d == viewH / 2 -> r d == Qmin viewW viewH / 2 ->
   translateX (click_transform d) == translateX root_transform /\
   translateY (click_transform d) == translateY root_transform /\
   scale (click_transform d) == scale root_transform).
Proof.
  exact (X14_zoom_scale (mkPackNode hA 0 350 250 250) eq_refl).
Defined.

(** ** More on truncation *)

Lemma substring_0_append (p q : string) :
  substring 0 (String.length p) (p ++ q) = p.
Proof.
  induction p as [| c p IH]; simpl.
  - destruct q; reflexivity.
  - now rewrite IH.
Qed.

(** X15: truncating a rendered label again with the same budget (at least
    2) gives the same text: the cut falls where it fell the first time. *)
Theorem X15_truncate_idempotent (label : string) (m : Z) :
  (2 <= m)%Z ->
  truncate (truncate label m) m = truncate label m.
Proof.
  intros Hm.
  destruct (Z_le_gt_dec (Z.of_nat (String.length label)) m) as [Hfit | Hlong].
  - rewrite (truncate_fits label m Hfit). apply truncate_fits, Hfit.
  - assert (Hrange : (2 <= m < Z.of_nat (String.length label))%Z) by lia.
    destruct (truncate_long label m Hrange) as [Heq Hlen].
    assert (Hrange' : (2 <= m < Z.of_nat (String.length (truncate label m)))%Z) by lia.
    destruct (truncate_long (truncate label m) m Hrange') as [Heq' _].
    rewrite Heq'. rewrite Heq at 1.
    set (p := substring 0 (Z.to_nat (m - 2)) label).
    assert (Hp : String.length p = Z.to_nat (m - 2)).
    { unfold p. apply length_substring_0. lia. }
    rewrite <- Hp, substring_0_append. symmetry. exact Heq.
Qed.

Lemma X15_truncate_idempotent_witness :
  (2 <= 5)%Z /\ truncate (truncate "SourceFile" 5) 5 = truncate "SourceFile" 5.
Proof.
  split; [lia | apply (X15_truncate_idempotent "SourceFile" 5); lia].
Defined.

(** X16: for every label that is drawn the budget is at least 3, so the
    cut position [maxChars - 2] is never negative; the rendered text is
    either the whole name or its first [maxChars - 2] characters followed
    by the ellipsis, and it has at most [maxChars + 1] characters. *)
Theorem X16_drawn_label_shape (d : PackNode) :
  has_label d = true ->
  let m := maxChars d (getFontSize (depth d)) in
  (3 <= m)%Z /\
  (truncatedLabel d = name (data d) \/
   truncatedLabel d = (substring 0 (Z.to_nat (m - 2)) (name (data d)) ++ "...")%string) /\
  (Z.of_nat (String.length (truncatedLabel d)) <= m + 1)%Z.
Proof.
  intros Hlab m.
  destruct (drawn_label_budget d Hlab) as [_ Hm]. fold m in Hm.
  split; [exact Hm |].
  unfold truncatedLabel. fold m.
  destruct (Z_le_gt_dec (Z.of_nat (String.length (name (data d)))) m) as [Hfit | Hlong].
  - rewrite (truncate_fits _ m Hfit). split; [left; reflexivity | lia].
  - assert (Hrange : (2 <= m < Z.of_nat (String.length (name (data d))))%Z) by lia.
    destruct (truncate_long _ m Hrange) as [Heq Hlen].
    split; [right; exact Heq | lia].
Qed.

Lemma X16_drawn_label_shape_witness :
  let d := long_root in
  let m := maxChars d (getFontSize (depth d)) in
  (3 <= m)%Z /\
  (truncatedLabel d = name (data d) \/
   truncatedLabel d = (substring 0 (Z.to_nat (m - 2)) (name (data d)) ++ "...")%string) /\
  (Z.of_nat (String.length (truncatedLabel d)) <= m + 1)%Z.
Proof.
  exact (X16_drawn_label_shape long_root eq_refl).
Defined.

(** X17: the character budget grows with the circle and shrinks with the
    font: for a positive font size a circle with the larger radius never
    has the smaller budget, and for a circle of radius at least 5 the
    larger font never has the larger budget. *)
Theorem X17_budget_monotone (d1 d2 : PackNode) (f1 f2 : Z) :
  (0 < f1 <= f2)%Z ->
  r d1 <= r d2 ->
  (maxChars d1 f1 <= maxChars d2 f1)%Z /\
  (5 <= r d1 -> (maxChars d1 f2 <= maxChars d1 f1)%Z).
Proof.
  intros [Hf1 Hf12] Hr.
  assert (Hpi : 0 < JS.Math_PI) by reflexivity.
  assert (Hc : forall f, (0 < f)%Z -> 0 < inject_Z f * (6 # 10)).
  { intros f Hf. apply Qmult_lt_0_compat; [| reflexivity].
    change 0 with (inject_Z 0). rewrite <- Zlt_Qlt. exact Hf. }
  unfold maxChars, JS.Math_floor, arcRadius. split.
  - apply Qfloor_resp_le.
    apply Qmult_le_compat_r.
    + apply Qmult_le_compat_r; lra.
    + apply Qlt_le_weak, Qinv_lt_0_compat, Hc, Hf1.
  - intros H5. apply Qfloor_resp_le.
    assert (Hnum : 0 <= (r d1 - 5) * JS.Math_PI) by (apply Qmult_le_0_compat; lra).
    assert (Hf2 : (0 < f2)%Z) by lia.
    pose proof (Hc f1 Hf1) as Hc1. pose proof (Hc f2 Hf2) as Hc2.
    assert (Hle : inject_Z f1 * (6 # 10) <= inject_Z f2 * (6 # 10)).
    { apply Qmult_le_compat_r; [| discriminate]. rewrite <- Zle_Qle. exact Hf12. }
    revert Hnum Hc1 Hc2 Hle.
    generalize ((r d1 - 5) * JS.Math_PI) (inject_Z f1 * (6 # 10))
               (inject_Z f2 * (6 # 10)).
    intros n c1 c2 Hnum Hc1 Hc2 Hle.
    apply Qle_shift_div_l; [exact Hc1 |].
    assert (E : n / c2 * c1 == n * (c1 / c2)) by (field; lra).
    assert (Hq : c1 / c2 <= 1) by (apply Qle_shift_div_r; [exact Hc2 | lra]).
    assert (Hprod : 0 <= n * (1 - c1 / c2)) by (apply Qmult_le_0_compat; lra).
    rewrite E. revert Hprod. generalize (c1 / c2). intros q Hprod.
    assert (E' : n * (1 - q) == n - n * q) by ring.
    rewrite E' in Hprod. lra.
Qed.

Lemma X17_budget_monotone_witness :
  let d1 := mkPackNode hC 1 450 250 110 in
  let d2 := mkPackNode hA 0 350 250 250 in
  (0 < 24 <= 40)%Z /\ (r d1 <= r d2) /\
  (maxChars d1 24 <= maxChars d2 24)%Z /\
  (5 <= r d1 -> (maxChars d1 40 <= maxChars d1 24)%Z).
Proof.
  split; [lia |]. split; [vm_compute; discriminate |].
  apply (X17_budget_monotone (mkPackNode hC 1 450 250 110)
           (mkPackNode hA 0 350 250 250) 24 40).
  - lia.
  - vm_compute; discriminate.
Defined.

(** ** The parser test page *)

Lemma TsNode_nested_ind (P : TsNode -> Prop) :
  (forall k cs, Forall P cs -> P (mkTsNode k cs)) -> forall n, P n.
Proof.
  intros Hnode. fix IH 1. intros [k cs]. apply Hnode.
  induction cs as [| c cs IHcs]; constructor; [apply IH | exact IHcs].
Qed.

Lemma visit_preorder (g : nat -> string) (n : TsNode) (acc : list string) :
  visit g n acc = acc ++ map g (preorder n).
Proof.
  revert acc. induction n as [k cs IH] using TsNode_nested_ind. intros acc.
  simpl.
  replace (acc ++ g k :: map g (flat_map preorder cs))
    with ((acc ++ [g k]) ++ map g (flat_map preorder cs))
    by (rewrite <- app_assoc; reflexivity).
  generalize (acc ++ [g k]). clear acc.
  induction IH as [| c cs Hc _ IHcs]; intros acc; simpl.
  - now rewrite app_nil_r.
  - rewrite IHcs, Hc, map_app, app_assoc. reflexivity.
Qed.

Lemma length_preorder (n : TsNode) : List.length (preorder n) = ts_size n.
Proof.
  induction n as [k cs IH] using TsNode_nested_ind. simpl. f_equal.
  induction IH as [| c cs Hc _ IHcs]; simpl; [reflexivity |].
  rewrite length_app, Hc, IHcs. reflexivity.
Qed.

(** X18: when parsing succeeds the page lists exactly one type name per
    node of the syntax tree, in document order with the root first, and the
    number it announces is the number of nodes of the tree, never 0; when
    parsing fails it shows the error and no list. *)
Theorem X18_App_lists_every_node (g : nat -> string) (result : ParseResult) :
  match result with
  | ParseSuccess ast =>
      App g result = TypesPage (map g (preorder ast)) (ts_size ast) /\
      (1 <= ts_size ast)%nat /\
      hd_error (map g (preorder ast)) =
        Some (g (match ast with mkTsNode k _ => k end))
  | ParseFailure e => App g result = ErrorPage e
  end.
Proof.
  destruct result as [e | ast]; [reflexivity |].
  unfold App. rewrite visit_preorder. simpl.
  rewrite length_map, length_preorder.
  destruct ast as [k cs]. simpl. repeat split. lia.
Qed.

(** ** Segmented buttons *)

Lemma filter_highlighted_none (tl : string -> string) (options : list string)
    (selected : string) :
  ~ In selected (map tl options) ->
  filter highlighted (SegmentedControl tl options selected) = [].
Proof.
  unfold SegmentedControl. induction options as [| o rest IH]; simpl; intros Hnot.
  - reflexivity.
  - destruct (String.eqb selected (tl o)) eqn:E.
    + apply String.eqb_eq in E. exfalso. apply Hnot. left. symmetry. exact E.
    + apply IH. intros Hin. apply Hnot. right. exact Hin.
Qed.



(** X20: no segment is highlighted when the selected value is not the
    lower-case form of an option; in particular a selected value that is an
    option's caption with a capital letter highlights nothing. *)
Theorem X20_unknown_selection_highlights_nothing
    (tl : string -> string) (options : list string) (selected : string) :
  ~ In selected (map tl options) ->
  filter highlighted (SegmentedControl tl options selected) = [] /\
  forall b, In b (SegmentedControl tl options selected) -> highlighted b = false.
Proof.
  intros Hnot.
  pose proof (filter_highlighted_none tl options selected Hnot) as Hnone.
  split; [exact Hnone |].
  intros b Hin. destruct (highlighted b) eqn:E; [| reflexivity].
  assert (Hf : In b (filter highlighted (SegmentedControl tl options selected)))
    by (apply filter_In; split; assumption).
  rewrite Hnone in Hf. contradiction.
Qed.

Lemma X20_unknown_selection_highlights_nothing_witness :
  let options := ["JavaScript"; "TypeScript"]%string in
  ~ In "TypeScript"%string (map lower options) /\
  filter highlighted (SegmentedControl lower options "TypeScript") = [] /\
  forall b, In b (SegmentedControl lower options "TypeScript") -> highlighted b = false.
Proof.
  assert (Hnot : ~ In "TypeScript"%string (map lower ["JavaScript"; "TypeScript"]%string)).
  { simpl. intuition discriminate. }
  split; [exact Hnot |].
  exact (X20_unknown_selection_highlights_nothing lower
           ["JavaScript"; "TypeScript"]%string "TypeScript" Hnot).
Defined.

(** X21: whatever the mode, at most one of the two mode buttons of the
    editor is highlighted; and once the host has adopted the value a
    button hands over, that button and no other is highlighted. *)
Theorem X21_mode_buttons_exclusive (mode : string) :
  (List.length (filter highlighted (CodeEditor_modes mode)) <= 1)%nat /\
  forall b, In b (CodeEditor_modes mode) ->
    map caption (filter highlighted (CodeEditor_modes (emits b))) = [caption b].
Proof.
  split.
  - unfold CodeEditor_modes. simpl.
    destruct (String.eqb mode "javascript") eqn:Ej;
      destruct (String.eqb mode "typescript") eqn:Et; simpl; try lia.
    apply String.eqb_eq in Ej. apply String.eqb_eq in Et.
    rewrite Ej in Et. discriminate Et.
  - intros b [<- | [<- | []]]; reflexivity.
Qed.
